(** * Wordle duel server: a shallow embedding of [server/src/index.ts]

    The development follows the server file top to bottom: JavaScript
    strings and arrays as the server uses them, the feedback function
    [evaluate], the [Game] record and the registry, the socket.io room
    bookkeeping the handlers read, and one function per socket handler.
    Handlers are state-passing functions [Server -> Server * list Emit]:
    the emissions are kept in program order.

    Strings are Rocq [string]s, one [ascii] per UTF-16 code unit, so the
    model speaks about payloads whose code units are at most U+00FF.
    [undefined] (an index out of range, a missing map entry, [null]) is
    [None]. *)

From Stdlib Require Import ZArith Ascii String.
From stdpp Require Import gmap strings list fin_maps.

Local Open Scope string_scope.
Local Open Scope list_scope.
Local Open Scope Z_scope.

(** ** JavaScript strings *)

Module JsString.

(** [s[i]]: the code unit at [i], or [undefined]. *)
Definition char_at (s : string) (i : nat) : option ascii := String.get i s.

(** [for (const c of s)]: the characters in order. *)
Definition chars (s : string) : list ascii := list_ascii_of_string s.

(** A non-empty string is truthy. *)
Definition truthy (s : string) : bool :=
  match s with EmptyString => false | String _ _ => true end.

Definition is_lower (c : ascii) : bool :=
  (("a" <=? c)%char && (c <=? "z")%char)%bool.

Definition is_upper (c : ascii) : bool :=
  (("A" <=? c)%char && (c <=? "Z")%char)%bool.

(** [c.toUpperCase()] for one code unit [c] up to U+00FF, as UTF-16 code
    units: the ASCII small letters and the Latin-1 small letters (U+00E0 to
    U+00FE without the division sign U+00F7) move down by 32, the sharp s
    U+00DF becomes the two units SS, the micro sign U+00B5 becomes U+039C
    and the y with diaeresis U+00FF becomes U+0178; every other unit is
    kept. *)
Definition upper_units (c : ascii) : list N :=
  let n := N_of_ascii c in
  if ((97 <=? n)%N && (n <=? 122)%N)%bool then [(n - 32)%N]
  else if (n =? 181)%N then [924%N]
  else if (n =? 223)%N then [83%N; 83%N]
  else if (((224 <=? n)%N && (n <=? 246)%N)
           || ((248 <=? n)%N && (n <=? 254)%N))%bool then [(n - 32)%N]
  else if (n =? 255)%N then [376%N]
  else [n].

(** A code unit as a character of a string here.  A unit beyond U+00FF
    cannot be held: the unit [c] it is the upper-case form of stands in
    for it (this happens for U+039C and U+0178 only, which like U+00B5 and
    U+00FF are single units and no letters A-Z). *)
Definition narrow (c : ascii) (u : N) : ascii :=
  if (u <? 256)%N then ascii_of_N u else c.

Definition upper_char (c : ascii) : string :=
  string_of_list_ascii (map (narrow c) (upper_units c)).

(** [s.toUpperCase()] *)
Fixpoint toUpperCase (s : string) : string :=
  match s with
  | EmptyString => EmptyString
  | String c s' => String.append (upper_char c) (toUpperCase s')
  end.

(** [s.toUpperCase()] as the code units JavaScript produces. *)
Definition toUpperCase_units (s : string) : list N :=
  flat_map upper_units (chars s).

(** [/^[A-Z]{5}$/.test(s)]: without the [m] flag [$] is the end of the
    input, so exactly five letters and nothing else. *)
Definition is_word5 (s : string) : bool :=
  (forallb is_upper (chars s) && (length (chars s) =? 5)%nat)%bool.

(** The same test on code units. *)
Definition is_word5_units (u : list N) : bool :=
  (forallb (fun n => ((65 <=? n)%N && (n <=? 90)%N)%bool) u
   && (length u =? 5)%nat)%bool.

(** The string a key or search argument is converted to: a character is
    itself, [undefined] is the text "undefined". *)
Definition key_text (k : option ascii) : string :=
  match k with Some c => String c EmptyString | None => "undefined" end.

(** [s.includes(x)]: substring search. *)
Definition includes (s : string) (k : option ascii) : bool :=
  match String.index 0 (key_text k) s with Some _ => true | None => false end.

End JsString.

Import JsString.

(** ** JavaScript arrays with holes *)

Module JsArray.

(** An array is a list of slots; a hole reads as [undefined]. *)
Abbreviation t A := (list (option A)).

Definition get {A} (a : t A) (i : nat) : option A := mjoin (a !! i).

(** [a[i] = x]: in range the slot is overwritten, past the end the array
    grows and the gap is left as holes. *)
Definition set {A} (i : nat) (x : A) (a : t A) : t A :=
  if decide (i < length a)%nat
  then <[i := Some x]> a
  else a ++ replicate (i - length a) None ++ [Some x].

(** [a.every(p)]: holes are skipped. *)
Definition every {A} (p : A -> bool) (a : t A) : bool :=
  forallb (fun slot => match slot with Some x => p x | None => true end) a.

End JsArray.

(** ** The feedback function *)

Inductive Mark : Set := correct | present | absent.

#[global] Instance Mark_eq_dec : EqDecision Mark.
Proof. solve_decision. Defined.

Definition is_correct (m : Mark) : bool :=
  match m with correct => true | _ => false end.

(** [count]: a [Record<string, number>] whose keys are single characters.
    A key that is missing and a key that holds [NaN] behave alike (neither
    is [> 0], decrementing either gives [NaN]), so both are a missing key
    here; the key "undefined" is never a character and is left out. *)
Abbreviation Counts := (gmap ascii Z).

(** [count[c] = (count[c] || 0) + 1] *)
Definition count_incr (count : Counts) (c : ascii) : Counts :=
  <[c := default 0 (count !! c) + 1]> count.

(** [count[k]--] *)
Definition count_decr (count : Counts) (k : option ascii) : Counts :=
  match k with
  | Some c => alter Z.pred c count
  | None => count
  end.

(** [count[k] > 0] *)
Definition count_pos (count : Counts) (k : option ascii) : bool :=
  match k with
  | Some c => match count !! c with Some n => 0 <? n | None => false end
  | None => false
  end.

Record EvalState : Type := mkEval {
  result : JsArray.t Mark;
  count : Counts
}.

(** Body of the first loop. *)
Definition pass1_body (guess secret : string) (st : EvalState) (i : nat)
  : EvalState :=
  if decide (char_at guess i = char_at secret i)
  then mkEval (JsArray.set i correct (result st))
              (count_decr (count st) (char_at guess i))
  else st.

(** Body of the second loop; [if (result[i]) continue] comes first. *)
Definition pass2_body (guess secret : string) (st : EvalState) (i : nat)
  : EvalState :=
  match JsArray.get (result st) i with
  | Some _ => st
  | None =>
      if (includes secret (char_at guess i)
          && count_pos (count st) (char_at guess i))%bool
      then mkEval (JsArray.set i present (result st))
                  (count_decr (count st) (char_at guess i))
      else mkEval (JsArray.set i absent (result st)) (count st)
  end.

(** [for (let i = 0; i < n; i++) body] *)
Definition for_upto {St} (n : nat) (body : St -> nat -> St) (st : St) : St :=
  fold_left body (seq 0 n) st.

Definition initial_count (secret : string) : Counts :=
  fold_left count_incr (chars secret) ∅.

Definition after_pass1 (guess secret : string) : EvalState :=
  for_upto 5 (pass1_body guess secret) (mkEval [] (initial_count secret)).

Definition after_pass2 (guess secret : string) : EvalState :=
  for_upto 5 (pass2_body guess secret) (after_pass1 guess secret).

Definition evaluate (guess secret : string) : JsArray.t Mark :=
  result (after_pass2 guess secret).

(** ** Sessions and the registry *)

Inductive Role : Set := setter | guesser.

#[global] Instance Role_eq_dec : EqDecision Role.
Proof. solve_decision. Defined.

(** [interface Game]; [setterSocketId] is [None] for [null] and for the
    [undefined] a failed [find] can leave there. *)
Record Game : Type := mkGame {
  secret : string;
  guesses : list string;
  feedbacks : list (JsArray.t Mark);
  players : list Role;
  started : bool;
  setterSocketId : option string;
  locked : bool
}.

Definition set_secret (x : string) (g : Game) : Game :=
  mkGame x (guesses g) (feedbacks g) (players g) (started g)
         (setterSocketId g) (locked g).
Definition set_guesses (x : list string) (g : Game) : Game :=
  mkGame (secret g) x (feedbacks g) (players g) (started g)
         (setterSocketId g) (locked g).
Definition set_feedbacks (x : list (JsArray.t Mark)) (g : Game) : Game :=
  mkGame (secret g) (guesses g) x (players g) (started g)
         (setterSocketId g) (locked g).
Definition set_players (x : list Role) (g : Game) : Game :=
  mkGame (secret g) (guesses g) (feedbacks g) x (started g)
         (setterSocketId g) (locked g).
Definition set_started (x : bool) (g : Game) : Game :=
  mkGame (secret g) (guesses g) (feedbacks g) (players g) x
         (setterSocketId g) (locked g).
Definition set_setterSocketId (x : option string) (g : Game) : Game :=
  mkGame (secret g) (guesses g) (feedbacks g) (players g) (started g)
         x (locked g).
Definition set_locked (x : bool) (g : Game) : Game :=
  mkGame (secret g) (guesses g) (feedbacks g) (players g) (started g)
         (setterSocketId g) x.

(** [game.players.includes(r)] *)
Definition has_role (r : Role) (ps : list Role) : bool := bool_decide (r ∈ ps).

(** Outbound messages and whom they are addressed to: [socket.emit] goes
    to one connection, [io.to(r).emit] to the members of room [r]. *)
Inductive Msg : Type :=
| room_created (room : string) (role : Role)
| room_joined (room : string) (role : Role)
| opponent_joined
| game_started
| guess_result (guess : string) (feedback : JsArray.t Mark)
               (won over : bool) (attempts : nat)
| roles_swapped (newRole : Role)
| error (text : string).

Inductive Target : Type :=
| to_socket (id : string)
| to_room (room : string).

Definition Emit : Type := (Target * Msg)%type.

(** The server: the [games] map, and what the handlers read of socket.io:
    the connected sockets [io.sockets.sockets], the room membership
    [io.sockets.adapter.rooms] (members in joining order; a room that
    loses its last member is dropped; every socket sits in the room named
    by its own id), and the callbacks [setTimeout] has pending.  The
    handlers never depend on the order of [games], so it is a finite map. *)
Record Server : Type := mkServer {
  games : gmap string Game;
  sockets : gset string;
  rooms : gmap string (list string);
  timers : list (string * option string)
}.

Definition set_games (x : gmap string Game) (w : Server) : Server :=
  mkServer x (sockets w) (rooms w) (timers w).

Definition initial_server : Server := mkServer ∅ ∅ ∅ [].

(** [Array.from(io.sockets.adapter.rooms.get(room) || [])] *)
Definition room_sockets (rs : gmap string (list string)) (room : string)
  : list string :=
  default [] (rs !! room).

(** [socket.join(room)]: the membership is a set. *)
Definition socket_join (id room : string) (rs : gmap string (list string))
  : gmap string (list string) :=
  if bool_decide (id ∈ room_sockets rs room) then rs
  else <[room := room_sockets rs room ++ [id]]> rs.

(** What socket.io does to the rooms before the [disconnect] event is
    raised: the socket leaves every room, and emptied rooms are dropped. *)
Definition leave_all (id : string) (rs : gmap string (list string))
  : gmap string (list string) :=
  omap (fun members =>
          match filter (fun x => x ≠ id) members with
          | [] => None
          | m :: ms => Some (m :: ms)
          end) rs.

(** The connections an emission reaches. *)
Definition recipients (w : Server) (t : Target) : list string :=
  match t with
  | to_socket id => [id]
  | to_room r => room_sockets (rooms w) r
  end.

(** [xs.find(id => id !== other)] *)
Definition find_other (other : option string) (xs : list string)
  : option string :=
  List.find (fun id => bool_decide (Some id ≠ other)) xs.

(** [a || b] on socket ids: the empty string is falsy like [undefined]. *)
Definition id_or (a b : option string) : option string :=
  match a with
  | Some s => if truthy s then Some s else b
  | None => b
  end.

(** ** The socket handlers *)

(** [io.on("connection")]: socket.io registers the socket and puts it in
    the room named by its id. *)
Definition on_connection (id : string) (w : Server) : Server * list Emit :=
  (mkServer (games w) ({[id]} ∪ sockets w) (socket_join id id (rooms w))
            (timers w), []).

(** [socket.on("create")]; [room] is the code [createRoom()] drew. *)
Definition on_create (id room : string) (w : Server) : Server * list Emit :=
  let game := mkGame EmptyString [] [] [setter] false (Some id) false in
  (mkServer (<[room := game]> (games w)) (sockets w)
            (socket_join id room (rooms w)) (timers w),
   [(to_socket id, room_created room setter)]).

(** [setter && setter.rooms.has(room)] for the socket registered as [id]. *)
Definition in_room (w_sockets : gset string) (rs : gmap string (list string))
    (id room : string) : bool :=
  (bool_decide (id ∈ w_sockets) && bool_decide (id ∈ room_sockets rs room))%bool.

(** [socket.on("join")] *)
Definition on_join (id room : string) (w : Server) : Server * list Emit :=
  match games w !! room with
  | None => (w, [(to_socket id, error "Room not found")])
  | Some game =>
      if has_role guesser (players game)
      then (w, [(to_socket id, error "Room full")])
      else if (locked game && started game)%bool
      then (w, [(to_socket id, error "Game already in progress")])
      else
        let game1 := set_players (players game ++ [guesser]) game in
        let rooms1 := socket_join id room (rooms w) in
        let joined := [(to_socket id, room_joined room guesser)] in
        let setter_id := default EmptyString (setterSocketId game1) in
        let notified :=
          if in_room (sockets w) rooms1 setter_id room
          then [(to_socket setter_id, opponent_joined)] else [] in
        let '(game2, begun) :=
          if (locked game1 && negb (started game1))%bool
          then (set_started true game1, [(to_room room, game_started)])
          else (game1, []) in
        (mkServer (<[room := game2]> (games w)) (sockets w) rooms1 (timers w),
         joined ++ notified ++ begun)
  end.

(** [socket.on("set-word")] *)
Definition on_set_word (id room word : string) (w : Server)
  : Server * list Emit :=
  match games w !! room with
  | None => (w, [])
  | Some game =>
      if (truthy (secret game)
          || negb (bool_decide (setterSocketId game = Some id)))%bool
      then (w, [])
      else
        let wd := toUpperCase word in
        if negb (is_word5 wd)
        then (w, [(to_socket id, error "Invalid word")])
        else
          let game1 := set_locked true (set_secret wd game) in
          let '(game2, begun) :=
            if has_role guesser (players game1)
            then (set_started true game1, [(to_room room, game_started)])
            else (game1, []) in
          (set_games (<[room := game2]> (games w)) w, begun)
  end.

(** [socket.on("guess")] *)
Definition on_guess (id room guess : string) (w : Server)
  : Server * list Emit :=
  match games w !! room with
  | None => (w, [])
  | Some game =>
      if (negb (truthy (secret game)) || negb (started game))%bool
      then (w, [])
      else
        let g := toUpperCase guess in
        if negb (is_word5 g) then (w, [])
        else
          let fb := evaluate g (secret game) in
          let game1 := set_guesses (guesses game ++ [g]) game in
          let game2 := set_feedbacks (feedbacks game1 ++ [fb]) game1 in
          let won := JsArray.every is_correct fb in
          let over := (won || (6 <=? length (guesses game2))%nat)%bool in
          (set_games (<[room := game2]> (games w)) w,
           [(to_room room,
             guess_result g fb won over (length (guesses game2)))])
  end.

(** [socket.on("request-role-swap")]; [players.length < 2] is the match
    falling through. *)
Definition on_request_role_swap (id room : string) (w : Server)
  : Server * list Emit :=
  match games w !! room with
  | None => (w, [])
  | Some game =>
      if negb (started game) then (w, [])
      else
        match players game with
        | oldSetter :: oldGuesser :: _ =>
            let roomSockets := room_sockets (rooms w) room in
            let newSetterSocketId :=
              id_or (find_other (setterSocketId game) roomSockets)
                    (head roomSockets) in
            let game1 :=
              mkGame EmptyString [] [] [oldGuesser; oldSetter] false
                     newSetterSocketId false in
            let told :=
              map (fun sid =>
                     (to_room sid,
                      roles_swapped
                        (if bool_decide (Some sid = newSetterSocketId)
                         then setter else guesser)))
                  roomSockets in
            (mkServer (<[room := game1]> (games w)) (sockets w) (rooms w)
                      (timers w ++ [(room, newSetterSocketId)]),
             told)
        | _ => (w, [])
        end
  end.

(** The callback [setTimeout] runs 800 ms after a swap: the oldest
    pending one, since all have the same delay. *)
Definition on_timeout (w : Server) : Server * list Emit :=
  match timers w with
  | [] => (w, [])
  | (room, newSetterSocketId) :: rest =>
      (mkServer (games w) (sockets w) (rooms w) rest,
       match newSetterSocketId with
       | Some sid =>
           if in_room (sockets w) (rooms w) sid room
           then [(to_socket sid, opponent_joined)] else []
       | None => []
       end)
  end.

(** One turn of the loop in the [disconnect] handler. *)
Definition disconnect_game (rs : gmap string (list string)) (id room : string)
    (game : Game) : option Game :=
  let socketsInRoom := room_sockets rs room in
  if bool_decide (length socketsInRoom = 0%nat) then None
  else if bool_decide (setterSocketId game = Some id)
  then Some (set_setterSocketId
               (id_or (find_other (Some id) socketsInRoom) None) game)
  else Some game.

(** [socket.on("disconnect")].  socket.io raises [disconnect] after the
    socket has left all its rooms ([disconnecting] is the event raised
    before), so the handler reads the membership without the socket. *)
Definition on_disconnect (id : string) (w : Server) : Server * list Emit :=
  let rs := leave_all id (rooms w) in
  (mkServer (map_imap (disconnect_game rs id) (games w))
            (sockets w ∖ {[id]}) rs (timers w), []).

(** ** Runs of the server *)

Inductive Event : Type :=
| ev_connection (id : string)
| ev_create (id room : string)
| ev_join (id room : string)
| ev_set_word (id room word : string)
| ev_guess (id room guess : string)
| ev_request_role_swap (id room : string)
| ev_timeout
| ev_disconnect (id : string).

Definition step (e : Event) (w : Server) : Server * list Emit :=
  match e with
  | ev_connection id => on_connection id w
  | ev_create id room => on_create id room w
  | ev_join id room => on_join id room w
  | ev_set_word id room word => on_set_word id room word w
  | ev_guess id room guess => on_guess id room guess w
  | ev_request_role_swap id room => on_request_role_swap id room w
  | ev_timeout => on_timeout w
  | ev_disconnect id => on_disconnect id w
  end.

(** Only a connected socket sends messages or disconnects, and a new
    connection has an id no connected socket has. *)
Definition enabled (e : Event) (w : Server) : bool :=
  match e with
  | ev_connection id => bool_decide (id ∉ sockets w)
  | ev_create id _ | ev_join id _ | ev_set_word id _ _ | ev_guess id _ _
  | ev_request_role_swap id _ | ev_disconnect id => bool_decide (id ∈ sockets w)
  | ev_timeout => true
  end.

Fixpoint run (tr : list Event) (w : Server) : option Server :=
  match tr with
  | [] => Some w
  | e :: tr' => if enabled e w then run tr' (step e w).1 else None
  end.

Definition reachable (w : Server) : Prop :=
  ∃ tr, run tr initial_server = Some w.

(** ** The feedback row as the specification words it *)

Module FeedbackSpec.

(** How many [i < n] satisfy [p]. *)
Fixpoint count_upto (p : nat -> bool) (n : nat) : nat :=
  match n with
  | O => O
  | S n' => (count_upto p n' + (if p n' then 1 else 0))%nat
  end.

(** The multiset of the secret's letters: how often [c] occurs. *)
Definition occurrences (c : ascii) (secret : string) : nat :=
  length (filter (fun x => x = c) (chars secret)).

(** Positions below [n] where the guess has letter [c] and the row has
    mark [m]. *)
Definition marked (guess : string) (row : list Mark) (m : Mark) (c : ascii)
    (n : nat) : nat :=
  count_upto
    (fun j => bool_decide (row !! j = Some m ∧ char_at guess j = Some c)) n.

(** The count left for letter [c] when the second pass reaches position
    [i]: the occurrences in the secret, less every correct mark and every
    earlier present mark of that letter. *)
Definition remaining (guess secret : string) (row : list Mark) (i : nat)
    (c : ascii) : Z :=
  Z.of_nat (occurrences c secret)
  - Z.of_nat (marked guess row correct c 5)
  - Z.of_nat (marked guess row present c i).

(** The canonical two-pass feedback. *)
Definition canonical (guess secret : string) (row : list Mark) : Prop :=
  length row = 5%nat ∧
  ∀ (i : nat) (c : ascii), (i < 5)%nat → char_at guess i = Some c →
    (row !! i = Some correct ↔ char_at secret i = Some c) ∧
    (char_at secret i ≠ Some c →
       (row !! i = Some present ↔ 0 < remaining guess secret row i c) ∧
       (row !! i = Some absent ↔ remaining guess secret row i c <= 0)).

(** No letter is rewarded more often than the secret has it. *)
Definition bounded (guess secret : string) (row : list Mark) : Prop :=
  ∀ c : ascii,
    (marked guess row correct c 5 + marked guess row present c 5
     ≤ occurrences c secret)%nat.

End FeedbackSpec.

Import FeedbackSpec.

(** ** Loop invariants of [evaluate] *)

Section EvaluateInvariants.

Variables guess secret : string.

(** Positions below [n] where guess and secret both have letter [c]. *)
Definition exact (c : ascii) (n : nat) : nat :=
  count_upto
    (fun j => bool_decide (char_at guess j = Some c
                           ∧ char_at secret j = Some c)) n.

(** Positions below [n] the array marks present for letter [c]. *)
Definition present_upto (a : JsArray.t Mark) (c : ascii) (n : nat) : nat :=
  count_upto
    (fun j => bool_decide (JsArray.get a j = Some present
                           ∧ char_at guess j = Some c)) n.

Definition left_over (a : JsArray.t Mark) (c : ascii) (n : nat) : Z :=
  Z.of_nat (occurrences c secret) - Z.of_nat (exact c 5)
  - Z.of_nat (present_upto a c n).

(** The mark position [i] ends up with, read off the array's earlier
    slots. *)
Definition slot_mark (a : JsArray.t Mark) (i : nat) : Mark :=
  if decide (char_at guess i = char_at secret i) then correct
  else match char_at guess i with
       | Some c => if 0 <? left_over a c i then present else absent
       | None => absent
       end.

Definition pass1_inv (n : nat) (st : EvalState) : Prop :=
  (length (result st) ≤ 5)%nat ∧
  (∀ i, JsArray.get (result st) i
        = if bool_decide ((i < n)%nat ∧ char_at guess i = char_at secret i)
          then Some correct else None) ∧
  (∀ c, count st !! c
        = match occurrences c secret with
          | O => None
          | S _ => Some (Z.of_nat (occurrences c secret)
                         - Z.of_nat (exact c n))
          end).

Definition pass2_inv (n : nat) (st : EvalState) : Prop :=
  (length (result st) ≤ 5)%nat ∧
  (∀ i, (n ≤ i)%nat →
        JsArray.get (result st) i
        = if bool_decide ((i < 5)%nat ∧ char_at guess i = char_at secret i)
          then Some correct else None) ∧
  (∀ i, (i < n)%nat →
        JsArray.get (result st) i = Some (slot_mark (result st) i)) ∧
  (∀ c, count st !! c
        = match occurrences c secret with
          | O => None
          | S _ => Some (left_over (result st) c n)
          end) ∧
  (∀ c, 0 <= left_over (result st) c n).

End EvaluateInvariants.

(** ** Invariants of the registry *)

(** What every session the handlers build satisfies: one setter alone or
    one setter and one guesser; a feedback row per guess; a started round
    has its guesser and its word; [locked] says whether a word is set. *)
Record game_ok (g : Game) : Prop := mk_game_ok {
  ok_seats :
    players g = [setter] ∨ players g = [setter; guesser]
    ∨ players g = [guesser; setter];
  ok_rows : length (feedbacks g) = length (guesses g);
  ok_started :
    started g = true → has_role guesser (players g) = true ∧ locked g = true;
  ok_locked : locked g = truthy (secret g)
}.

Definition server_ok (w : Server) : Prop :=
  ∀ room g, games w !! room = Some g → game_ok g.

(** Traces in which room code [room] is not drawn again by [createRoom]. *)
Definition draws (room : string) (e : Event) : bool :=
  match e with
  | ev_create _ r => bool_decide (r = room)
  | _ => false
  end.

Definition never_draws (room : string) (tr : list Event) : bool :=
  forallb (fun e => negb (draws room e)) tr.

#[global] Instance Msg_eq_dec : EqDecision Msg.
Proof. solve_decision. Defined.

(** A run used in the examples: a creates the room and locks CRANE, b
    joins and misses six times. *)
Definition six_misses : list Event :=
  [ev_connection "a"; ev_create "a" "ROOM01"; ev_connection "b";
   ev_join "b" "ROOM01"; ev_set_word "a" "ROOM01" "crane";
   ev_guess "b" "ROOM01" "MOUSE"; ev_guess "b" "ROOM01" "TIGER";
   ev_guess "b" "ROOM01" "HORSE"; ev_guess "b" "ROOM01" "SHEEP";
   ev_guess "b" "ROOM01" "ZEBRA"; ev_guess "b" "ROOM01" "LLAMA"].

(** The server after a run from the start. *)
Definition after (tr : list Event) : Server :=
  default initial_server (run tr initial_server).

(** a creates the room and locks CRANE before anyone joins. *)
Definition locked_waiting : list Event :=
  [ev_connection "a"; ev_create "a" "ROOM01";
   ev_set_word "a" "ROOM01" "crane"].

(** ... then b joins, which starts the round. *)
Definition round_started : list Event :=
  locked_waiting ++ [ev_connection "b"; ev_join "b" "ROOM01"].

(** ... and b finds the word at once. *)
Definition won_at_once : list Event :=
  round_started ++ [ev_guess "b" "ROOM01" "crane"].

(** The role a seat does not have. *)
Definition other_role (r : Role) : Role :=
  match r with setter => guesser | guesser => setter end.

(** How a handler addressed to room [r] may change the registry: not at
    all, or by replacing the session of [r], which keeps a seated guesser
    seated. *)
Definition updates_at (r : string) (m m' : gmap string Game) : Prop :=
  m' = m
  ∨ ∃ old g, m !! r = Some old ∧ m' = <[r := g]> m
             ∧ (game_ok old → has_role guesser (players old) = true →
                has_role guesser (players g) = true).

(** A second round: after the win the roles are swapped, b locks TIGER
    and a finds it at once. *)
Definition second_round_won : list Event :=
  won_at_once
  ++ [ev_request_role_swap "b" "ROOM01"; ev_set_word "b" "ROOM01" "tiger";
      ev_guess "a" "ROOM01" "tiger"].

(** a creates the room, b joins, a locks CRANE. *)
Definition both_seated : list Event :=
  [ev_connection "a"; ev_create "a" "ROOM01"; ev_connection "b";
   ev_join "b" "ROOM01"; ev_set_word "a" "ROOM01" "crane"].

(** ... and then b's connection drops, leaving a alone in the room. *)
Definition guesser_left : list Event :=
  both_seated ++ [ev_disconnect "b"].

(** ** Vocabulary for further properties of the server *)

(** An ASCII letter of either case. *)
Definition is_letter (c : ascii) : bool := (is_lower c || is_upper c)%bool.

(** The sharp s, U+00DF. *)
Definition is_sharp_s (c : ascii) : bool := (N_of_ascii c =? 223)%N.

(** How many letters a character gives when upper-cased to letters. *)
Definition upper_width (c : ascii) : nat := if is_sharp_s c then 2 else 1.

(** The word m, a, U+00DF, e. *)
Definition masse : string :=
  String "m" (String "a" (String (ascii_of_N 223) (String "e" EmptyString))).

(** What holds of a session's round in every reachable state: the secret
    is unset or a five-letter word, there are guesses only in a started
    round, every stored guess is a five-letter word, and the feedback
    history is the evaluation of the guesses against the secret. *)
Record round_ok (g : Game) : Prop := mk_round_ok {
  ok_secret : secret g = EmptyString ∨ is_word5 (secret g) = true;
  ok_idle : started g = false → guesses g = [];
  ok_guesses : Forall (fun x => is_word5 x = true) (guesses g);
  ok_feedbacks : feedbacks g = map (fun x => evaluate x (secret g)) (guesses g)
}.

Definition rounds_ok (w : Server) : Prop :=
  ∀ room g, games w !! room = Some g → round_ok g.

(** Handling a sequence of events, collecting what is emitted. *)
Fixpoint steps (tr : list Event) (w : Server) : Server * list Emit :=
  match tr with
  | [] => (w, [])
  | e :: tr' =>
      let '(w1, out1) := step e w in
      let '(w2, out2) := steps tr' w1 in
      (w2, out1 ++ out2)
  end.

(** The connection an event comes from. *)
Definition sender (e : Event) : option string :=
  match e with
  | ev_connection id | ev_create id _ | ev_join id _ | ev_set_word id _ _
  | ev_guess id _ _ | ev_request_role_swap id _ | ev_disconnect id => Some id
  | ev_timeout => None
  end.

(** Whether an event is a role-swap request for [room]. *)
Definition swaps (room : string) (e : Event) : bool :=
  match e with
  | ev_request_role_swap _ r => bool_decide (r = room)
  | _ => false
  end.

(** * Proofs *)

(** Facts about concrete runs are settled by running the model. *)
Ltac by_running := vm_compute; reflexivity.

(** ** The embedding on concrete inputs *)

Example toUpperCase_mixed : toUpperCase "cRaNe-5" = "CRANE-5".
Proof. by_running. Qed.

Example is_word5_cases :
  is_word5 "CRANE" = true ∧ is_word5 "crane" = false
  ∧ is_word5 "CRANES" = false ∧ is_word5 "CR4NE" = false
  ∧ is_word5 EmptyString = false.
Proof. repeat split; by_running. Qed.

Example evaluate_all_correct :
  evaluate "CRANE" "CRANE" = replicate 5 (Some correct).
Proof. by_running. Qed.

Example evaluate_repeated_letter :
  evaluate "EERIE" "CRANE"
  = Some <$> [absent; absent; present; absent; correct].
Proof. by_running. Qed.

(** The first loop leaves holes where the letters differ. *)
Example after_pass1_holes :
  result (after_pass1 "LLAMA" "ALLOY") = [None; Some correct].
Proof. by_running. Qed.

Example round_started_state :
  games (after round_started) !! "ROOM01"
  = Some (mkGame "CRANE" [] [] [setter; guesser] true (Some "a") true)
  ∧ rooms (after round_started) !! "ROOM01" = Some ["a"; "b"].
Proof. split; by_running. Qed.


(** ** Loops and counting *)

Lemma for_upto_S {St} (n : nat) (body : St -> nat -> St) (st : St) :
  for_upto (S n) body st = body (for_upto n body st) n.
Proof.
  unfold for_upto. rewrite seq_S, fold_left_app. reflexivity.
Qed.

(** The loop rule: an invariant indexed by the number of turns done. *)
Lemma for_upto_inv {St} (I : nat -> St -> Prop) (body : St -> nat -> St)
    (st : St) (n : nat) :
  I O st →
  (∀ i s, (i < n)%nat → I i s → I (S i) (body s i)) →
  I n (for_upto n body st).
Proof.
  intros H0 Hstep.
  assert (∀ k, (k ≤ n)%nat → I k (for_upto k body st)) as Hk.
  { induction k as [|k IH]; intros Hle.
    - exact H0.
    - rewrite for_upto_S. apply Hstep; [lia | apply IH; lia]. }
  apply Hk. lia.
Qed.

Lemma count_upto_ext (p q : nat -> bool) (n : nat) :
  (∀ j, (j < n)%nat → p j = q j) → count_upto p n = count_upto q n.
Proof.
  induction n as [|n IH]; intros H; simpl; [reflexivity|].
  rewrite IH by (intros; apply H; lia). rewrite (H n) by lia. reflexivity.
Qed.

Lemma count_upto_shift (p : nat -> bool) (n : nat) :
  count_upto p (S n)
  = ((if p O then 1 else 0) + count_upto (fun j => p (S j)) n)%nat.
Proof.
  induction n as [|n IH]; [simpl; lia|].
  change (count_upto p (S (S n)))
    with (count_upto p (S n) + (if p (S n) then 1 else 0))%nat.
  rewrite IH. simpl. lia.
Qed.

Lemma count_upto_le (p q : nat -> bool) (n : nat) :
  (∀ j, p j = true → q j = true) → (count_upto p n ≤ count_upto q n)%nat.
Proof.
  intros H. induction n as [|n IH]; simpl; [lia|].
  destruct (p n) eqn:Hp; [rewrite (H n Hp)|destruct (q n)]; lia.
Qed.

Lemma char_at_chars (s : string) (i : nat) : char_at s i = chars s !! i.
Proof.
  revert i. induction s as [|a s IH]; intros [|i]; simpl; try reflexivity.
  apply IH.
Qed.

(** Counting a letter by index never exceeds its multiplicity. *)
Lemma count_lookup_le (c : ascii) (l : list ascii) (n : nat) :
  (count_upto (fun j => bool_decide (l !! j = Some c)) n
   ≤ length (filter (fun x => x = c) l))%nat.
Proof.
  revert n. induction l as [|a l IH]; intros n.
  - induction n as [|n IHn]; simpl in *; lia.
  - destruct n as [|n]; [simpl; lia|].
    rewrite count_upto_shift. simpl lookup.
    specialize (IH n). rewrite filter_cons.
    destruct (decide (a = c)) as [->|Hne].
    + rewrite bool_decide_eq_true_2 by reflexivity. simpl. lia.
    + rewrite bool_decide_eq_false_2 by congruence. simpl. lia.
Qed.

(** ** Arrays *)

Lemma get_nil {A} (i : nat) : JsArray.get (@nil (option A)) i = None.
Proof. unfold JsArray.get. destruct i; reflexivity. Qed.

Lemma get_set_eq {A} (i : nat) (x : A) (a : JsArray.t A) :
  JsArray.get (JsArray.set i x a) i = Some x.
Proof.
  unfold JsArray.get, JsArray.set. destruct (decide (i < length a)%nat).
  - rewrite list_lookup_insert_eq by assumption. reflexivity.
  - rewrite app_assoc, lookup_app_r
      by (rewrite length_app, length_replicate; lia).
    rewrite length_app, length_replicate.
    replace (i - (length a + (i - length a)))%nat with O by lia. reflexivity.
Qed.

Lemma get_set_ne {A} (i j : nat) (x : A) (a : JsArray.t A) :
  i ≠ j → JsArray.get (JsArray.set i x a) j = JsArray.get a j.
Proof.
  intros Hne. unfold JsArray.get, JsArray.set.
  destruct (decide (i < length a)%nat).
  - rewrite list_lookup_insert_ne by assumption. reflexivity.
  - destruct (decide (j < length a)%nat).
    + rewrite lookup_app_l by assumption. reflexivity.
    + rewrite (lookup_ge_None_2 a j) by lia.
      rewrite lookup_app_r by lia.
      destruct (decide (j < i)%nat).
      * rewrite lookup_app_l by (rewrite length_replicate; lia).
        rewrite lookup_replicate_2 by lia. reflexivity.
      * rewrite lookup_ge_None_2; [reflexivity|].
        rewrite length_app, length_replicate. simpl. lia.
Qed.

Lemma length_set {A} (i : nat) (x : A) (a : JsArray.t A) :
  length (JsArray.set i x a) = (length a `max` S i)%nat.
Proof.
  unfold JsArray.set. destruct (decide (i < length a)%nat).
  - rewrite length_insert. lia.
  - rewrite !length_app, length_replicate. simpl. lia.
Qed.

(** An array of five filled slots is a dense row. *)
Lemma dense_row {A} (a : JsArray.t A) (f : nat -> A) :
  length a = 5%nat →
  (∀ i, (i < 5)%nat → JsArray.get a i = Some (f i)) →
  a = Some <$> map f (seq 0 5).
Proof.
  intros Hlen Hget.
  destruct a as [|x0 [|x1 [|x2 [|x3 [|x4 [|x5 a]]]]]]; try discriminate.
  pose proof (Hget 0%nat ltac:(lia)) as H0.
  pose proof (Hget 1%nat ltac:(lia)) as H1.
  pose proof (Hget 2%nat ltac:(lia)) as H2.
  pose proof (Hget 3%nat ltac:(lia)) as H3.
  pose proof (Hget 4%nat ltac:(lia)) as H4.
  unfold JsArray.get in *. simpl in *. congruence.
Qed.

(** ** The letter counts *)

Lemma fold_count_incr (l : list ascii) (m : Counts) (c : ascii) :
  fold_left count_incr l m !! c
  = match length (filter (fun x => x = c) l) with
    | O => m !! c
    | S k => Some (default 0 (m !! c) + Z.of_nat (S k))
    end.
Proof.
  revert m. induction l as [|a l IH]; intros m; [reflexivity|].
  simpl fold_left. rewrite IH, filter_cons. unfold count_incr.
  destruct (decide (a = c)) as [->|Hne].
  - rewrite lookup_insert_eq. simpl length. simpl default.
    destruct (length (filter (fun x => x = c) l)); f_equal; lia.
  - rewrite lookup_insert_ne by assumption. reflexivity.
Qed.

Lemma initial_count_lookup (secret : string) (c : ascii) :
  initial_count secret !! c
  = match occurrences c secret with
    | O => None
    | S k => Some (Z.of_nat (S k))
    end.
Proof.
  unfold initial_count, occurrences. rewrite fold_count_incr, lookup_empty.
  reflexivity.
Qed.

Lemma includes_char (c : ascii) (s : string) :
  c ∈ chars s → includes s (Some c) = true.
Proof.
  unfold includes, key_text.
  induction s as [|b s IH]; intros Hin; simpl in Hin.
  - apply elem_of_nil in Hin. contradiction.
  - simpl. destruct (ascii_dec c b) as [->|Hne].
    + destruct s; reflexivity.
    + apply elem_of_cons in Hin as [->|Hin]; [contradiction|].
      specialize (IH Hin).
      destruct (index 0 (String c EmptyString) s); [reflexivity|discriminate].
Qed.

Lemma occurrences_pos_in (c : ascii) (s : string) :
  occurrences c s ≠ O → c ∈ chars s.
Proof.
  unfold occurrences. intros Hne.
  destruct (filter (fun x => x = c) (chars s)) as [|x l] eqn:Hf;
    [contradiction|].
  assert (x ∈ filter (fun x => x = c) (chars s)) as Hx
    by (rewrite Hf; left).
  apply list_elem_of_filter in Hx as [-> Hx]. exact Hx.
Qed.

Lemma char_at_occurrences (c : ascii) (s : string) (i : nat) :
  char_at s i = Some c → occurrences c s ≠ O.
Proof.
  rewrite char_at_chars. intros Hi. unfold occurrences.
  assert (c ∈ filter (fun x => x = c) (chars s)) as Hin.
  { apply list_elem_of_filter. split; [reflexivity|].
    eapply list_elem_of_lookup_2. exact Hi. }
  destruct (filter (fun x => x = c) (chars s));
    [apply elem_of_nil in Hin; contradiction | discriminate].
Qed.

(** ** The first loop *)

Lemma exact_le_occurrences (guess secret : string) (c : ascii) (n : nat) :
  (exact guess secret c n ≤ occurrences c secret)%nat.
Proof.
  unfold exact, occurrences.
  etransitivity; [|apply (count_lookup_le c (chars secret) n)].
  apply count_upto_le. intros j Hj.
  apply bool_decide_eq_true in Hj as [_ Hj].
  apply bool_decide_eq_true. rewrite <- char_at_chars. exact Hj.
Qed.

Lemma exact_S (guess secret : string) (c : ascii) (n : nat) :
  exact guess secret c (S n)
  = (exact guess secret c n
     + (if bool_decide (char_at guess n = Some c ∧ char_at secret n = Some c)
        then 1 else 0))%nat.
Proof. reflexivity. Qed.

Lemma pass1_start (guess secret : string) :
  pass1_inv guess secret 0 (mkEval [] (initial_count secret)).
Proof.
  split; [simpl; lia|]. split.
  - intros i. cbn [result]. rewrite get_nil.
    rewrite bool_decide_eq_false_2 by lia. reflexivity.
  - intros c. cbn [count]. rewrite initial_count_lookup.
    destruct (occurrences c secret); [reflexivity|].
    unfold exact. cbn [count_upto]. f_equal; lia.
Qed.

Lemma pass1_step (guess secret : string) (i : nat) (st : EvalState) :
  (i < 5)%nat → pass1_inv guess secret i st →
  pass1_inv guess secret (S i) (pass1_body guess secret st i).
Proof.
  intros Hi (Hlen & Hget & Hcnt). unfold pass1_body.
  destruct (decide (char_at guess i = char_at secret i)) as [Heq|Hne].
  - split; [cbn [result]; rewrite length_set; lia|]. split.
    + intros j. cbn [result]. destruct (decide (i = j)) as [<-|Hij].
      * rewrite get_set_eq, bool_decide_eq_true_2; [reflexivity|].
        split; [lia|assumption].
      * rewrite get_set_ne, Hget by assumption.
        apply (f_equal (fun b : bool => if b then Some correct else None)).
        apply bool_decide_ext. intuition lia.
    + intros c. cbn [count]. rewrite exact_S.
      destruct (char_at guess i) as [c0|] eqn:Hg; cbn [count_decr].
      * destruct (decide (c0 = c)) as [->|Hc].
        -- rewrite lookup_alter_eq, Hcnt.
           rewrite bool_decide_eq_true_2 by (split; congruence).
           pose proof (char_at_occurrences c secret i (eq_sym Heq)).
           destruct (occurrences c secret); [contradiction|].
           cbn [fmap option_fmap option_map]. f_equal. lia.
        -- rewrite lookup_alter_ne, Hcnt by assumption.
           rewrite bool_decide_eq_false_2 by (intros [? _]; congruence).
           destruct (occurrences c secret); [reflexivity|]. f_equal. lia.
      * rewrite Hcnt.
        rewrite bool_decide_eq_false_2 by (intros [? _]; congruence).
        destruct (occurrences c secret); [reflexivity|]. f_equal. lia.
  - split; [assumption|]. split.
    + intros j. rewrite Hget.
      apply (f_equal (fun b : bool => if b then Some correct else None)).
      apply bool_decide_ext. split; [intuition lia|].
      intros [Hj Hjeq]. split; [|assumption].
      destruct (decide (j = i)) as [->|]; [contradiction|lia].
    + intros c. rewrite Hcnt, exact_S.
      rewrite bool_decide_eq_false_2 by (intros [? ?]; congruence).
      destruct (occurrences c secret); [reflexivity|]. f_equal. lia.
Qed.

Lemma pass1_done (guess secret : string) :
  pass1_inv guess secret 5 (after_pass1 guess secret).
Proof.
  unfold after_pass1.
  apply (for_upto_inv (pass1_inv guess secret)).
  - apply pass1_start.
  - intros i s Hi. apply pass1_step. exact Hi.
Qed.

(** ** The second loop *)

Section SecondLoop.

Variables guess secret : string.

Lemma present_upto_agree (a a' : JsArray.t Mark) (c : ascii) (n : nat) :
  (∀ j, (j < n)%nat → JsArray.get a' j = JsArray.get a j) →
  present_upto guess a' c n = present_upto guess a c n.
Proof.
  intros H. apply count_upto_ext. intros j Hj. rewrite (H j Hj).
  reflexivity.
Qed.

Lemma left_over_agree (a a' : JsArray.t Mark) (c : ascii) (n : nat) :
  (∀ j, (j < n)%nat → JsArray.get a' j = JsArray.get a j) →
  left_over guess secret a' c n = left_over guess secret a c n.
Proof.
  intros H. unfold left_over. rewrite (present_upto_agree a a' c n H).
  reflexivity.
Qed.

Lemma slot_mark_agree (a a' : JsArray.t Mark) (i : nat) :
  (∀ j, (j < i)%nat → JsArray.get a' j = JsArray.get a j) →
  slot_mark guess secret a' i = slot_mark guess secret a i.
Proof.
  intros H. unfold slot_mark.
  destruct (decide (char_at guess i = char_at secret i)); [reflexivity|].
  destruct (char_at guess i); [|reflexivity].
  rewrite (left_over_agree a a' _ i H). reflexivity.
Qed.

Lemma left_over_S (a : JsArray.t Mark) (c : ascii) (n : nat) :
  left_over guess secret a c (S n)
  = left_over guess secret a c n
    - (if bool_decide (JsArray.get a n = Some present
                       ∧ char_at guess n = Some c) then 1 else 0).
Proof.
  unfold left_over, present_upto. cbn [count_upto].
  destruct (bool_decide _); lia.
Qed.

Lemma left_over_no_letter (a : JsArray.t Mark) (c : ascii) (n : nat) :
  occurrences c secret = O → left_over guess secret a c n <= 0.
Proof. unfold left_over. intros ->. lia. Qed.

(** What the test of the second loop amounts to. *)
Lemma pass2_test (st : EvalState) (i : nat) :
  pass2_inv guess secret i st →
  (includes secret (char_at guess i)
   && count_pos (count st) (char_at guess i))%bool
  = match char_at guess i with
    | Some c => 0 <? left_over guess secret (result st) c i
    | None => false
    end.
Proof.
  intros (_ & _ & _ & Hcnt & _).
  destruct (char_at guess i) as [c|]; cbn [count_pos];
    [|apply andb_false_r].
  rewrite Hcnt. destruct (occurrences c secret) as [|k] eqn:Hocc.
  - rewrite andb_false_r. symmetry. apply Z.ltb_ge.
    apply left_over_no_letter. exact Hocc.
  - rewrite includes_char; [reflexivity|].
    apply occurrences_pos_in. lia.
Qed.

Lemma pass2_start (st : EvalState) :
  pass1_inv guess secret 5 st → pass2_inv guess secret 0 st.
Proof.
  intros (Hlen & Hget & Hcnt).
  split; [assumption|]. split; [intros i _; apply Hget|].
  split; [intros i Hi; lia|].
  assert (∀ c, left_over guess secret (result st) c 0
               = Z.of_nat (occurrences c secret)
                 - Z.of_nat (exact guess secret c 5)) as Hleft
    by (intros c; unfold left_over, present_upto; cbn [count_upto]; lia).
  split; intros c; rewrite Hleft.
  - apply Hcnt.
  - pose proof (exact_le_occurrences guess secret c 5). lia.
Qed.

Lemma pass2_step (i : nat) (st : EvalState) :
  (i < 5)%nat → pass2_inv guess secret i st →
  pass2_inv guess secret (S i) (pass2_body guess secret st i).
Proof.
  intros Hi Hinv. pose proof (pass2_test st i Hinv) as Htest.
  destruct Hinv as (Hlen & Hrest & Hdone & Hcnt & Hpos).
  unfold pass2_body. pose proof (Hrest i (le_n i)) as Hslot.
  destruct (decide (char_at guess i = char_at secret i)) as [Heq|Hne].
  - (* already marked in the first loop: [continue] *)
    rewrite bool_decide_eq_true_2 in Hslot by (split; assumption).
    rewrite Hslot.
    assert (∀ c, left_over guess secret (result st) c (S i)
                 = left_over guess secret (result st) c i) as Hleft.
    { intros c. rewrite left_over_S, Hslot.
      rewrite bool_decide_eq_false_2 by (intros [? _]; discriminate). lia. }
    split; [assumption|]. split; [intros j Hj; apply Hrest; lia|].
    split; [|split; intros c; rewrite Hleft; auto].
    intros j Hj. destruct (decide (j = i)) as [->|]; [|apply Hdone; lia].
    rewrite Hslot. unfold slot_mark. rewrite decide_True by assumption.
    reflexivity.
  - rewrite bool_decide_eq_false_2 in Hslot by (intros [_ ?]; contradiction).
    rewrite Hslot, Htest.
    assert (∀ m j, (j < i)%nat →
              JsArray.get (JsArray.set i m (result st)) j
              = JsArray.get (result st) j) as Hold
      by (intros m j Hj; apply get_set_ne; lia).
    destruct (char_at guess i) as [c0|] eqn:Hg.
    + destruct (0 <? left_over guess secret (result st) c0 i) eqn:Hlt.
      * (* present *)
        apply Z.ltb_lt in Hlt.
        assert (∀ c, left_over guess secret
                       (JsArray.set i present (result st)) c (S i)
                     = left_over guess secret (result st) c i
                       - (if decide (c0 = c) then 1 else 0)) as Hleft.
        { intros c. rewrite left_over_S, get_set_eq, Hg.
          rewrite (left_over_agree _ _ c i (Hold present)).
          destruct (decide (c0 = c)) as [->|Hc].
          - rewrite bool_decide_eq_true_2 by (split; reflexivity).
            reflexivity.
          - rewrite bool_decide_eq_false_2 by (intros [_ ?]; congruence).
            reflexivity. }
        split; [cbn [result]; rewrite length_set; lia|].
        split; [intros j Hj; cbn [result];
                rewrite get_set_ne by lia; apply Hrest; lia|].
        split; [|split; intros c; cbn [result count count_decr];
                 rewrite Hleft].
        -- intros j Hj. cbn [result].
           rewrite (slot_mark_agree (result st))
             by (intros k Hk; apply get_set_ne; lia).
           destruct (decide (j = i)) as [->|].
           ++ rewrite get_set_eq. unfold slot_mark.
              rewrite decide_False, Hg by congruence.
              apply Z.ltb_lt in Hlt. rewrite Hlt. reflexivity.
           ++ rewrite get_set_ne by lia. apply Hdone. lia.
        -- destruct (decide (c0 = c)) as [->|Hc].
           ++ rewrite lookup_alter_eq, Hcnt.
              destruct (occurrences c secret) eqn:Hocc.
              ** pose proof (left_over_no_letter (result st) c i Hocc). lia.
              ** cbn [fmap option_fmap option_map]. f_equal; lia.
           ++ rewrite lookup_alter_ne, Hcnt by assumption.
              destruct (occurrences c secret); [reflexivity|].
              f_equal; lia.
        -- specialize (Hpos c). destruct (decide (c0 = c)) as [->|]; lia.
      * (* absent: the count is used up *)
        assert (∀ c, left_over guess secret
                       (JsArray.set i absent (result st)) c (S i)
                     = left_over guess secret (result st) c i) as Hleft.
        { intros c. rewrite left_over_S, get_set_eq.
          rewrite (left_over_agree _ _ c i (Hold absent)).
          rewrite bool_decide_eq_false_2 by (intros [? _]; discriminate).
          lia. }
        split; [cbn [result]; rewrite length_set; lia|].
        split; [intros j Hj; cbn [result];
                rewrite get_set_ne by lia; apply Hrest; lia|].
        split; [|split; intros c; cbn [result count];
                 rewrite Hleft; auto].
        intros j Hj. cbn [result].
        rewrite (slot_mark_agree (result st))
          by (intros k Hk; apply get_set_ne; lia).
        destruct (decide (j = i)) as [->|].
        -- rewrite get_set_eq. unfold slot_mark.
           rewrite decide_False, Hg, Hlt by congruence. reflexivity.
        -- rewrite get_set_ne by lia. apply Hdone. lia.
    + (* no character at [i]: absent *)
      assert (∀ c, left_over guess secret
                     (JsArray.set i absent (result st)) c (S i)
                   = left_over guess secret (result st) c i) as Hleft.
      { intros c. rewrite left_over_S, get_set_eq.
        rewrite (left_over_agree _ _ c i (Hold absent)).
        rewrite bool_decide_eq_false_2 by (intros [? _]; discriminate).
        lia. }
      split; [cbn [result]; rewrite length_set; lia|].
      split; [intros j Hj; cbn [result];
              rewrite get_set_ne by lia; apply Hrest; lia|].
      split; [|split; intros c; cbn [result count]; rewrite Hleft; auto].
      intros j Hj. cbn [result].
      rewrite (slot_mark_agree (result st))
        by (intros k Hk; apply get_set_ne; lia).
      destruct (decide (j = i)) as [->|].
      * rewrite get_set_eq. unfold slot_mark.
        rewrite decide_False, Hg by congruence. reflexivity.
      * rewrite get_set_ne by lia. apply Hdone. lia.
Qed.

Lemma pass2_done : pass2_inv guess secret 5 (after_pass2 guess secret).
Proof.
  unfold after_pass2.
  apply (for_upto_inv (pass2_inv guess secret)).
  - apply pass2_start, pass1_done.
  - intros i s Hi. apply pass2_step. exact Hi.
Qed.

End SecondLoop.

(** ** The feedback row *)

Lemma get_Some_lt {A} (a : JsArray.t A) (i : nat) (x : A) :
  JsArray.get a i = Some x → (i < length a)%nat.
Proof.
  unfold JsArray.get. intros H. apply lookup_lt_is_Some.
  destruct (a !! i); [eauto|discriminate].
Qed.

Lemma is_word5_length (s : string) :
  is_word5 s = true → length (chars s) = 5%nat.
Proof.
  unfold is_word5. intros H. apply andb_true_iff in H as [_ H].
  apply Nat.eqb_eq in H. exact H.
Qed.

Lemma is_word5_char_at (s : string) (i : nat) :
  is_word5 s = true → (i < 5)%nat → ∃ c, char_at s i = Some c.
Proof.
  intros H Hi. rewrite char_at_chars. apply lookup_lt_is_Some.
  rewrite (is_word5_length s H). exact Hi.
Qed.

(** What the second loop's invariant says of the returned array. *)
Lemma evaluate_inv (guess secret : string) :
  (length (evaluate guess secret) ≤ 5)%nat
  ∧ (∀ i, (i < 5)%nat →
       JsArray.get (evaluate guess secret) i
       = Some (slot_mark guess secret (evaluate guess secret) i))
  ∧ (∀ c, 0 <= left_over guess secret (evaluate guess secret) c 5).
Proof.
  destruct (pass2_done guess secret) as (Hlen & _ & Hdone & _ & Hpos).
  unfold evaluate. auto.
Qed.

(** The array [evaluate] returns is dense, and its marks are the ones
    [slot_mark] reads off. *)
Lemma evaluate_row (guess secret : string) :
  let row := map (slot_mark guess secret (evaluate guess secret)) (seq 0 5) in
  evaluate guess secret = Some <$> row
  ∧ ∀ i, (i < 5)%nat →
      JsArray.get (evaluate guess secret) i = row !! i
      ∧ row !! i = Some (slot_mark guess secret (evaluate guess secret) i).
Proof.
  intros row. destruct (evaluate_inv guess secret) as (Hlen & Hdone & _).
  assert (∀ i, (i < 5)%nat →
            row !! i = Some (slot_mark guess secret (evaluate guess secret) i))
    as Hrow.
  { intros i Hi. unfold row. rewrite list_lookup_fmap, lookup_seq_lt by lia.
    reflexivity. }
  split.
  - apply dense_row; [|exact Hdone].
    pose proof (get_Some_lt _ _ _ (Hdone 4%nat ltac:(lia))). lia.
  - intros i Hi. rewrite Hrow, Hdone by assumption. split; reflexivity.
Qed.

Lemma slot_mark_correct (guess secret : string) (a : JsArray.t Mark) (i : nat) :
  slot_mark guess secret a i = correct
  ↔ char_at guess i = char_at secret i.
Proof.
  unfold slot_mark.
  destruct (decide (char_at guess i = char_at secret i)) as [Heq|Hne];
    [tauto|].
  split; [|contradiction].
  destruct (char_at guess i); [destruct (0 <? _)|]; discriminate.
Qed.

(** The counts of the loop invariants are the counts of the specification. *)
Lemma exact_marked (guess secret : string) (c : ascii) :
  let row := map (slot_mark guess secret (evaluate guess secret)) (seq 0 5) in
  marked guess row correct c 5 = exact guess secret c 5.
Proof.
  intros row. destruct (evaluate_row guess secret) as [_ Hrow].
  fold row in Hrow. unfold marked, exact. apply count_upto_ext.
  intros j Hj. destruct (Hrow j Hj) as [_ ->]. apply bool_decide_ext.
  split.
  - intros [Hm Hg]. injection Hm as Hm.
    apply slot_mark_correct in Hm. split; congruence.
  - intros [Hg Hs]. split; [|assumption]. f_equal.
    apply slot_mark_correct. congruence.
Qed.

Lemma present_marked (guess secret : string) (c : ascii) (n : nat) :
  let row := map (slot_mark guess secret (evaluate guess secret)) (seq 0 5) in
  (n ≤ 5)%nat →
  marked guess row present c n
  = present_upto guess (evaluate guess secret) c n.
Proof.
  intros row Hn. destruct (evaluate_row guess secret) as [_ Hrow].
  fold row in Hrow. unfold marked, present_upto. apply count_upto_ext.
  intros j Hj. destruct (Hrow j ltac:(lia)) as [-> _]. reflexivity.
Qed.

Lemma remaining_left_over (guess secret : string) (c : ascii) (n : nat) :
  let row := map (slot_mark guess secret (evaluate guess secret)) (seq 0 5) in
  (n ≤ 5)%nat →
  remaining guess secret row n c
  = left_over guess secret (evaluate guess secret) c n.
Proof.
  intros row Hn. unfold remaining, left_over. subst row.
  rewrite (exact_marked guess secret c).
  rewrite (present_marked guess secret c n Hn). reflexivity.
Qed.

(** The specification pins the row down: two canonical rows are equal. *)
Lemma canonical_unique (guess secret : string) (r1 r2 : list Mark) :
  is_word5 guess = true →
  canonical guess secret r1 → canonical guess secret r2 → r1 = r2.
Proof.
  intros Hguess [Hlen1 Hrow1] [Hlen2 Hrow2].
  assert (∀ c, marked guess r1 correct c 5 = marked guess r2 correct c 5)
    as Hcorrect.
  { intros c. apply count_upto_ext. intros j Hj. apply bool_decide_ext.
    split; intros [Hm Hc]; (split; [|exact Hc]).
    - apply (Hrow2 j c Hj Hc), (Hrow1 j c Hj Hc), Hm.
    - apply (Hrow1 j c Hj Hc), (Hrow2 j c Hj Hc), Hm. }
  assert (∀ i, (i ≤ 5)%nat → ∀ j, (j < i)%nat → r1 !! j = r2 !! j) as Hsame.
  { induction i as [|i IH]; intros Hi j Hj; [lia|].
    destruct (decide (j = i)) as [->|]; [|apply IH; lia].
    destruct (is_word5_char_at guess i Hguess ltac:(lia)) as [c Hc].
    destruct (Hrow1 i c ltac:(lia) Hc) as [Hc1 Hp1].
    destruct (Hrow2 i c ltac:(lia) Hc) as [Hc2 Hp2].
    destruct (decide (char_at secret i = Some c)) as [Hs|Hs].
    - rewrite (proj2 Hc1 Hs), (proj2 Hc2 Hs). reflexivity.
    - destruct (Hp1 Hs) as [Hpr1 Hab1]. destruct (Hp2 Hs) as [Hpr2 Hab2].
      assert (remaining guess secret r1 i c = remaining guess secret r2 i c)
        as Hrem.
      { unfold remaining. rewrite Hcorrect. do 2 f_equal.
        apply count_upto_ext. intros k Hk.
        rewrite (IH ltac:(lia) k Hk). reflexivity. }
      rewrite Hrem in Hpr1, Hab1.
      destruct (Z_lt_le_dec 0 (remaining guess secret r2 i c)) as [Hlt|Hle].
      + rewrite (proj2 Hpr1 Hlt), (proj2 Hpr2 Hlt). reflexivity.
      + rewrite (proj2 Hab1 Hle), (proj2 Hab2 Hle). reflexivity. }
  apply list_eq. intros i. destruct (decide (i < 5)%nat) as [Hi|Hi].
  - apply (Hsame 5%nat (le_n 5) i Hi).
  - rewrite !lookup_ge_None_2 by lia. reflexivity.
Qed.

(** C1. For every pair of five-letter upper-case words, [evaluate] returns
    a dense row of five marks that is the canonical two-pass feedback, and
    the only such row: position [i] is correct exactly when the letters
    agree; otherwise it is present exactly when the letter's count in the
    secret, less all correct marks and the earlier present marks of that
    letter, is still positive, and absent exactly when it is not.  Hence
    no letter is marked correct or present more often than the secret has
    it.  Secret ALLOY against guess LLAMA gives present, correct, present,
    absent, absent. *)
Theorem evaluate_canonical (guess secret : string) :
  is_word5 guess = true → is_word5 secret = true →
  (∃ row : list Mark,
      evaluate guess secret = Some <$> row
      ∧ canonical guess secret row
      ∧ (∀ row', canonical guess secret row' → row' = row)
      ∧ bounded guess secret row)
  ∧ evaluate "LLAMA" "ALLOY"
    = Some <$> [present; correct; present; absent; absent].
Proof.
  intros Hguess Hsecret. split; [|vm_compute; reflexivity].
  set (a := evaluate guess secret).
  set (row := map (slot_mark guess secret a) (seq 0 5)).
  destruct (evaluate_row guess secret) as [Hdense Hrow].
  fold a row in Hdense, Hrow.
  assert (canonical guess secret row) as Hcanonical.
  { split; [unfold row; rewrite length_map, length_seq; reflexivity|].
    intros i c Hi Hg. destruct (Hrow i Hi) as [_ Hri]. rewrite Hri.
    split.
    - split.
      + intros Hm. injection Hm as Hm.
        apply slot_mark_correct in Hm. congruence.
      + intros Hs. f_equal. apply slot_mark_correct. congruence.
    - intros Hs.
      pose proof (remaining_left_over guess secret c i ltac:(lia)) as Hrem.
      cbv zeta in Hrem. fold a in Hrem. fold row in Hrem. rewrite Hrem.
      unfold slot_mark. rewrite decide_False, Hg by congruence.
      destruct (0 <? left_over guess secret a c i) eqn:Hlt.
      + apply Z.ltb_lt in Hlt. split; split; intros H;
          try reflexivity; try assumption; try discriminate; lia.
      + apply Z.ltb_ge in Hlt. split; split; intros H;
          try reflexivity; try assumption; try discriminate; lia. }
  exists row. split; [exact Hdense|]. split; [exact Hcanonical|].
  split; [intros row' Hrow'; apply (canonical_unique guess secret);
          assumption|].
  intros c. destruct (evaluate_inv guess secret) as (_ & _ & Hpos).
  specialize (Hpos c). fold a in Hpos. unfold left_over in Hpos.
  pose proof (exact_marked guess secret c) as He.
  pose proof (present_marked guess secret c 5 (le_n 5)) as Hp.
  cbv zeta in He, Hp. fold a in He, Hp. fold row in He, Hp.
  rewrite He, Hp. lia.
Qed.

Lemma evaluate_canonical_witness :
  (∃ row : list Mark,
      evaluate "CIGAR" "CRANE" = Some <$> row
      ∧ canonical "CIGAR" "CRANE" row
      ∧ (∀ row', canonical "CIGAR" "CRANE" row' → row' = row)
      ∧ bounded "CIGAR" "CRANE" row)
  ∧ evaluate "LLAMA" "ALLOY"
    = Some <$> [present; correct; present; absent; absent].
Proof. apply (evaluate_canonical "CIGAR" "CRANE"); reflexivity. Defined.

(** ** Sessions stay well formed *)

Lemma has_role_app (r : Role) (ps qs : list Role) :
  has_role r (ps ++ qs) = (has_role r ps || has_role r qs)%bool.
Proof.
  unfold has_role. apply eq_true_iff_eq.
  rewrite orb_true_iff, !bool_decide_eq_true, elem_of_app. reflexivity.
Qed.

Lemma server_ok_insert (w w' : Server) (room : string) (g : Game) :
  server_ok w → games w' = <[room := g]> (games w) → game_ok g →
  server_ok w'.
Proof.
  intros Hw Hgames Hg r g' Hr. rewrite Hgames in Hr.
  destruct (decide (room = r)) as [->|Hne].
  - rewrite lookup_insert_eq in Hr. injection Hr as <-. exact Hg.
  - rewrite lookup_insert_ne in Hr by assumption. eapply Hw, Hr.
Qed.

Lemma initial_ok : server_ok initial_server.
Proof. intros room g H. cbn in H. rewrite lookup_empty in H. discriminate. Qed.

Lemma on_create_ok (id room : string) (w : Server) :
  server_ok w → server_ok (on_create id room w).1.
Proof.
  intros Hw. cbn [on_create fst games].
  eapply (server_ok_insert w); [exact Hw|reflexivity|].
  constructor; cbn; auto; discriminate.
Qed.

Lemma on_join_ok (id room : string) (w : Server) :
  server_ok w → server_ok (on_join id room w).1.
Proof.
  intros Hw. unfold on_join.
  destruct (games w !! room) as [game|] eqn:Hgame; [|exact Hw].
  destruct (has_role guesser (players game)) eqn:Hfull; [exact Hw|].
  destruct (locked game && started game)%bool eqn:Hbusy; [exact Hw|].
  destruct (Hw room game Hgame) as [Hseats Hrows Hstart Hlock].
  assert (players game = [setter]) as Hps.
  { destruct Hseats as [H|[H|H]]; [exact H| |]; rewrite H in Hfull;
      discriminate. }
  cbn [set_players locked started].
  destruct (locked game) eqn:Hl; cbn [andb] in *.
  - rewrite Hbusy. cbn [negb fst games].
    eapply (server_ok_insert w); [exact Hw|reflexivity|].
    constructor; cbn; rewrite ?Hps, ?Hl; auto.
  - cbn [fst games]. eapply (server_ok_insert w); [exact Hw|reflexivity|].
    constructor; cbn; rewrite ?Hps, ?Hl; auto.
    intros Hs. apply Hstart in Hs as [_ ?]. congruence.
Qed.

Lemma is_word5_truthy (s : string) : is_word5 s = true → truthy s = true.
Proof.
  intros H. apply is_word5_length in H. destruct s; [discriminate|reflexivity].
Qed.

Lemma on_set_word_ok (id room word : string) (w : Server) :
  server_ok w → server_ok (on_set_word id room word w).1.
Proof.
  intros Hw. unfold on_set_word.
  destruct (games w !! room) as [game|] eqn:Hgame; [|exact Hw].
  destruct (truthy (secret game) || _)%bool; [exact Hw|].
  destruct (is_word5 (toUpperCase word)) eqn:Hword; [|exact Hw].
  destruct (Hw room game Hgame) as [Hseats Hrows Hstart Hlock].
  apply is_word5_truthy in Hword.
  cbn [negb set_locked set_secret players].
  destruct (has_role guesser (players game)) eqn:Hg; cbn [fst set_games games];
    (eapply (server_ok_insert w); [exact Hw|reflexivity|]);
    constructor; cbn; auto.
  intros Hs. apply Hstart in Hs as [? _]. discriminate.
Qed.

Lemma on_guess_ok (id room guess : string) (w : Server) :
  server_ok w → server_ok (on_guess id room guess w).1.
Proof.
  intros Hw. unfold on_guess.
  destruct (games w !! room) as [game|] eqn:Hgame; [|exact Hw].
  destruct (negb (truthy (secret game)) || _)%bool; [exact Hw|].
  destruct (is_word5 (toUpperCase guess)); [|exact Hw].
  destruct (Hw room game Hgame) as [Hseats Hrows Hstart Hlock].
  cbn [negb fst set_games games]. eapply (server_ok_insert w); [exact Hw|reflexivity|].
  constructor; cbn; auto. rewrite !length_app, Hrows. reflexivity.
Qed.

Lemma on_request_role_swap_ok (id room : string) (w : Server) :
  server_ok w → server_ok (on_request_role_swap id room w).1.
Proof.
  intros Hw. unfold on_request_role_swap.
  destruct (games w !! room) as [game|] eqn:Hgame; [|exact Hw].
  destruct (started game); [|exact Hw]. cbn [negb].
  destruct (Hw room game Hgame) as [Hseats Hrows Hstart Hlock].
  destruct Hseats as [H|[H|H]]; rewrite H; [exact Hw| |];
    cbn [fst games]; (eapply (server_ok_insert w); [exact Hw|reflexivity|]);
    constructor; cbn; auto; discriminate.
Qed.

Lemma on_timeout_ok (w : Server) : server_ok w → server_ok (on_timeout w).1.
Proof.
  intros Hw. unfold on_timeout. destruct (timers w) as [|[room sid] rest];
    exact Hw.
Qed.

Lemma on_disconnect_lookup (id room : string) (w : Server) :
  games (on_disconnect id w).1 !! room
  = games w !! room ≫= disconnect_game (leave_all id (rooms w)) id room.
Proof. cbn [on_disconnect fst games]. apply map_lookup_imap. Qed.

Lemma on_disconnect_ok (id : string) (w : Server) :
  server_ok w → server_ok (on_disconnect id w).1.
Proof.
  intros Hw room g Hg. rewrite on_disconnect_lookup in Hg.
  destruct (games w !! room) as [game|] eqn:Hgame; [|discriminate].
  cbn [mbind option_bind] in Hg. unfold disconnect_game in Hg.
  destruct (Hw room game Hgame) as [Hseats Hrows Hstart Hlock].
  destruct (bool_decide (length _ = 0%nat)); [discriminate|].
  destruct (bool_decide (setterSocketId game = Some id));
    injection Hg as <-; constructor; cbn; auto.
Qed.

Lemma step_ok (e : Event) (w : Server) : server_ok w → server_ok (step e w).1.
Proof.
  destruct e; cbn [step].
  - intros Hw. exact Hw.
  - apply on_create_ok.
  - apply on_join_ok.
  - apply on_set_word_ok.
  - apply on_guess_ok.
  - apply on_request_role_swap_ok.
  - apply on_timeout_ok.
  - apply on_disconnect_ok.
Qed.

Lemma run_ok (tr : list Event) (w w' : Server) :
  server_ok w → run tr w = Some w' → server_ok w'.
Proof.
  revert w. induction tr as [|e tr IH]; intros w Hw Hrun; cbn [run] in Hrun.
  - injection Hrun as <-. exact Hw.
  - destruct (enabled e w); [|discriminate].
    eapply IH; [apply step_ok, Hw|exact Hrun].
Qed.

Lemma reachable_ok (w : Server) : reachable w → server_ok w.
Proof. intros [tr Hrun]. eapply run_ok; [apply initial_ok|exact Hrun]. Qed.

(** ** Joining *)

Lemma socket_join_member (id room : string) (rs : gmap string (list string)) :
  id ∈ room_sockets (socket_join id room rs) room.
Proof.
  unfold socket_join. destruct (bool_decide _) eqn:Hin.
  - apply bool_decide_eq_true in Hin. exact Hin.
  - unfold room_sockets at 1. rewrite lookup_insert_eq. cbn [default].
    apply elem_of_app. right. left.
Qed.

(** C4. When a session is both locked and started, a join on its room,
    from any connection, changes nothing on the server and emits one
    [error] message, to the joining connection alone, whose text is the
    full or the in-progress one. *)
Theorem join_refused_mid_round (w : Server) (id room : string) (game : Game) :
  games w !! room = Some game →
  locked game = true → started game = true →
  ∃ text,
    on_join id room w = (w, [(to_socket id, error text)])
    ∧ (text = "Room full" ∨ text = "Game already in progress")
    ∧ recipients w (to_socket id) = [id].
Proof.
  intros Hgame Hlocked Hstarted. unfold on_join. rewrite Hgame.
  destruct (has_role guesser (players game)).
  - exists "Room full". auto.
  - rewrite Hlocked, Hstarted. exists "Game already in progress". auto.
Qed.

(** C5. When a session is locked, not started and has no guesser seated,
    a join on its room succeeds: the joiner is told [room-joined], is
    seated as guesser and becomes a member of the room; [started] becomes
    true; and among the emissions there is exactly one [game-started],
    addressed to the room. *)
Theorem join_starts_locked_round (w : Server) (id room : string) (game : Game) :
  games w !! room = Some game →
  locked game = true → started game = false →
  has_role guesser (players game) = false →
  let w' := (on_join id room w).1 in
  let out := (on_join id room w).2 in
  games w' !! room
  = Some (set_started true (set_players (players game ++ [guesser]) game))
  ∧ head out = Some (to_socket id, room_joined room guesser)
  ∧ id ∈ recipients w' (to_room room)
  ∧ filter (fun e : Emit => e.2 = game_started) out
    = [(to_room room, game_started)]
  ∧ (∀ e text, e ∈ out → e.2 ≠ error text).
Proof.
  intros Hgame Hlocked Hstarted Hfree w' out. subst w' out.
  unfold on_join. rewrite Hgame, Hfree, Hlocked, Hstarted.
  cbn [andb negb set_players locked started fst snd games rooms].
  rewrite Hlocked, Hstarted. cbn [andb negb fst snd games rooms recipients].
  split; [apply lookup_insert_eq|]. split; [reflexivity|].
  split; [apply socket_join_member|].
  destruct (in_room _ _ _ _);
    cbn; (split; [reflexivity|]);
    intros e text He; repeat (apply elem_of_cons in He as [->|He]);
      try discriminate; apply elem_of_nil in He; contradiction.
Qed.

(** ** Upper-casing *)

Lemma append_assoc (s1 s2 s3 : string) :
  String.append s1 (String.append s2 s3)
  = String.append (String.append s1 s2) s3.
Proof.
  induction s1 as [|c s1 IH]; [reflexivity|].
  change (String c (String.append s1 (String.append s2 s3))
          = String c (String.append (String.append s1 s2) s3)).
  f_equal. exact IH.
Qed.

Lemma toUpperCase_append (s1 s2 : string) :
  toUpperCase (String.append s1 s2)
  = String.append (toUpperCase s1) (toUpperCase s2).
Proof.
  induction s1 as [|c s1 IH]; [reflexivity|].
  change (toUpperCase (String.append (String c s1) s2))
    with (String.append (upper_char c) (toUpperCase (String.append s1 s2))).
  change (toUpperCase (String c s1))
    with (String.append (upper_char c) (toUpperCase s1)).
  rewrite IH. apply append_assoc.
Qed.

Lemma upper_char_idem (c : ascii) : toUpperCase (upper_char c) = upper_char c.
Proof. destruct c as [[] [] [] [] [] [] [] []]; reflexivity. Qed.

Lemma toUpperCase_idem (s : string) : toUpperCase (toUpperCase s) = toUpperCase s.
Proof.
  induction s as [|c s IH]; [reflexivity|].
  cbn [toUpperCase]. rewrite toUpperCase_append, upper_char_idem, IH.
  reflexivity.
Qed.

(** ** Locking the word *)

(** C6. [set-word] on a known room: when the session already has a secret
    or the caller is not its setter connection, nothing changes and nothing
    is sent; otherwise the word is upper-cased, and if that is not exactly
    five letters A-Z the caller alone gets the error "Invalid word" and
    nothing changes, else the upper-cased word becomes the secret and the
    session is locked (and started, with [game-started] sent to the room,
    exactly when a guesser is seated).  Once a secret is set, and so after
    any accepted call, every further [set-word] is the same silent no-op. *)
Theorem set_word_guarded (w : Server) (id room word : string) (game : Game) :
  games w !! room = Some game →
  let wd := toUpperCase word in
  let res := on_set_word id room word w in
  (truthy (secret game) = true ∨ setterSocketId game ≠ Some id →
     res = (w, []))
  ∧ (truthy (secret game) = false → setterSocketId game = Some id →
       (is_word5 wd = false →
          res = (w, [(to_socket id, error "Invalid word")]))
       ∧ (is_word5 wd = true →
            games res.1 !! room
            = Some (mkGame wd (guesses game) (feedbacks game) (players game)
                      (has_role guesser (players game) || started game)
                      (setterSocketId game) true)
            ∧ res.2 = (if has_role guesser (players game)
                       then [(to_room room, game_started)] else [])
            ∧ ∀ id' word', on_set_word id' room word' res.1 = (res.1, [])))
  ∧ (truthy (secret game) = true →
       ∀ id' word', on_set_word id' room word' w = (w, [])).
Proof.
  intros Hgame wd res.
  assert (∀ (v : Server) (g : Game) id' word',
            games v !! room = Some g → truthy (secret g) = true →
            on_set_word id' room word' v = (v, [])) as Hset.
  { intros v g id' word' Hg Hs. unfold on_set_word. rewrite Hg, Hs.
    reflexivity. }
  split; [|split].
  - intros Hguard. subst res. unfold on_set_word. rewrite Hgame.
    destruct Hguard as [Hs|Hid].
    + rewrite Hs. reflexivity.
    + rewrite (bool_decide_eq_false_2 _ Hid), orb_true_r. reflexivity.
  - intros Hs Hid. subst res. unfold on_set_word. rewrite Hgame, Hs.
    rewrite (bool_decide_eq_true_2 _ Hid). cbn [negb orb]. fold wd.
    split; intros Hword; rewrite Hword; cbn [negb]; [reflexivity|].
    cbn [set_locked set_secret players].
    assert (∀ g', games (set_games (<[room := g']> (games w)) w) !! room
                  = Some g') as Hlook
      by (intros; cbn [set_games games]; apply lookup_insert_eq).
    destruct (has_role guesser (players game)); cbn [orb fst snd];
      (split; [apply Hlook|]); (split; [reflexivity|]); intros id' word';
      (eapply Hset; [apply Hlook|exact (is_word5_truthy _ Hword)]).
  - intros Hs id' word'. apply (Hset w game); assumption.
Qed.

(** ** Guessing *)

Lemma on_guess_accepts (w : Server) (id room guess : string) (game : Game) :
  games w !! room = Some game →
  truthy (secret game) = true → started game = true →
  is_word5 (toUpperCase guess) = true →
  let g := toUpperCase guess in
  let fb := evaluate g (secret game) in
  let n := S (length (guesses game)) in
  on_guess id room guess w
  = (set_games
       (<[room := set_feedbacks (feedbacks game ++ [fb])
                    (set_guesses (guesses game ++ [g]) game)]> (games w)) w,
     [(to_room room,
       guess_result g fb (JsArray.every is_correct fb)
         (JsArray.every is_correct fb || (6 <=? n)%nat) n)]).
Proof.
  intros Hgame Hsecret Hstarted Hword g fb n. subst g fb n. unfold on_guess.
  rewrite Hgame, Hsecret, Hstarted. cbn [negb orb]. rewrite Hword.
  cbn [negb set_feedbacks set_guesses guesses feedbacks].
  rewrite length_app. cbn [length].
  replace (length (guesses game) + 1)%nat with (S (length (guesses game)))
    by lia.
  reflexivity.
Qed.

Lemma every_correct_row (guess secret : string) :
  JsArray.every is_correct (evaluate guess secret) = true
  ↔ evaluate guess secret = replicate 5 (Some correct).
Proof.
  destruct (evaluate_row guess secret) as [Hdense _]. rewrite Hdense.
  cbn [seq map fmap list_fmap replicate].
  generalize (slot_mark guess secret (evaluate guess secret)).
  intros f. destruct (f 0%nat), (f 1%nat), (f 2%nat), (f 3%nat), (f 4%nat);
    cbn; split; intros H; try reflexivity; discriminate.
Qed.

(** C10. The guess handler does on a guess exactly what it does on the
    upper-cased guess, in every server state; and in a started round a
    guess whose upper-casing is five letters A-Z is stored, evaluated and
    broadcast upper-cased. *)
Theorem guess_case_insensitive (w : Server) (id room guess : string) :
  on_guess id room guess w = on_guess id room (toUpperCase guess) w
  ∧ ∀ game,
      games w !! room = Some game →
      truthy (secret game) = true → started game = true →
      is_word5 (toUpperCase guess) = true →
      ∃ won over,
        on_guess id room guess w
        = (set_games
             (<[room := set_feedbacks
                          (feedbacks game
                           ++ [evaluate (toUpperCase guess) (secret game)])
                          (set_guesses (guesses game ++ [toUpperCase guess])
                                       game)]> (games w)) w,
           [(to_room room,
             guess_result (toUpperCase guess)
               (evaluate (toUpperCase guess) (secret game)) won over
               (S (length (guesses game))))]).
Proof.
  split.
  - unfold on_guess. rewrite toUpperCase_idem. reflexivity.
  - intros game Hgame Hsecret Hstarted Hword. eexists _, _.
    apply on_guess_accepts; assumption.
Qed.

Lemma guess_case_insensitive_witness :
  on_guess "b" "ROOM01" "cIgAr" (after round_started)
  = on_guess "b" "ROOM01" "CIGAR" (after round_started)
  ∧ ∃ game, games (on_guess "b" "ROOM01" "cIgAr" (after round_started)).1
            !! "ROOM01" = Some game
            ∧ guesses game = ["CIGAR"].
Proof.
  destruct (guess_case_insensitive (after round_started) "b" "ROOM01" "cIgAr")
    as [Hsame Hstored].
  split; [exact Hsame|].
  destruct (Hstored (mkGame "CRANE" [] [] [setter; guesser] true (Some "a")
                       true))
    as (won & over & Heq); try (vm_compute; reflexivity).
  rewrite Heq. eexists. split; [apply lookup_insert_eq|reflexivity].
Defined.

(** C3, as the server has it.  In a started round with its secret set, a
    guess that upper-cases to five letters A-Z is appended with its
    feedback row, and one [guess-result] goes to the room, so to every
    member, carrying the guess, the row, [won], [over] and the number of
    guesses so far.  [won] holds exactly when the row is five times
    correct; [over] holds exactly when [won] holds or this is the sixth
    guess or a later one, so never before the sixth without a win.
    CRANE against CRANE is five times correct, with [won] and [over]. *)
Theorem guess_result_flags (w : Server) (id room guess : string) (game : Game) :
  games w !! room = Some game →
  truthy (secret game) = true → started game = true →
  is_word5 (toUpperCase guess) = true →
  let g := toUpperCase guess in
  let fb := evaluate g (secret game) in
  let n := S (length (guesses game)) in
  ∃ won over : bool,
    on_guess id room guess w
    = (set_games
         (<[room := set_feedbacks (feedbacks game ++ [fb])
                      (set_guesses (guesses game ++ [g]) game)]> (games w)) w,
       [(to_room room, guess_result g fb won over n)])
    ∧ (won = true ↔ fb = replicate 5 (Some correct))
    ∧ (over = true ↔ won = true ∨ (6 ≤ n)%nat)
    ∧ (won = false → (n < 6)%nat → over = false)
    ∧ recipients (on_guess id room guess w).1 (to_room room)
      = room_sockets (rooms w) room
    ∧ (secret game = "CRANE" → g = "CRANE" →
         fb = replicate 5 (Some correct) ∧ won = true ∧ over = true).
Proof.
  intros Hgame Hsecret Hstarted Hword g fb n.
  pose proof (on_guess_accepts w id room guess game Hgame Hsecret Hstarted
                Hword) as Heq.
  cbv zeta in Heq. fold g in Heq. fold fb in Heq. fold n in Heq.
  exists (JsArray.every is_correct fb),
         (JsArray.every is_correct fb || (6 <=? n)%nat)%bool.
  split; [exact Heq|]. split; [apply every_correct_row|].
  split; [rewrite orb_true_iff, Nat.leb_le; reflexivity|].
  split; [intros -> Hn; apply Nat.leb_gt in Hn; rewrite Hn; reflexivity|].
  split; [rewrite Heq; reflexivity|].
  intros Hs Hg. unfold fb. rewrite Hs, Hg. vm_compute. auto.
Qed.

Lemma guess_result_flags_witness :
  ∃ won over : bool,
    on_guess "b" "ROOM01" "crane" (after round_started)
    = (after won_at_once,
       [(to_room "ROOM01",
         guess_result "CRANE" (replicate 5 (Some correct)) won over 1)])
    ∧ won = true ∧ over = true.
Proof.
  destruct (guess_result_flags (after round_started) "b" "ROOM01" "crane"
              (mkGame "CRANE" [] [] [setter; guesser] true (Some "a") true))
    as (won & over & Heq & _ & _ & _ & _ & Hcrane);
    try (vm_compute; reflexivity).
  destruct Hcrane as (_ & Hwon & Hover); try reflexivity.
  exists won, over. split; [|split; assumption].
  rewrite Heq. subst won over. vm_compute. reflexivity.
Defined.

(** C3 as stated fails on a seventh guess: the round has its secret and
    is started, the guess is well formed and misses, and [over] is true
    although [won] is false and the guess is the seventh, not the sixth. *)
Lemma over_on_seventh_guess :
  run six_misses initial_server = Some (after six_misses)
  ∧ (∃ game, games (after six_misses) !! "ROOM01" = Some game
             ∧ secret game = "CRANE" ∧ started game = true
             ∧ length (guesses game) = 6%nat)
  ∧ is_word5 (toUpperCase "WRONG") = true
  ∧ (on_guess "b" "ROOM01" "WRONG" (after six_misses)).2
    = [(to_room "ROOM01",
        guess_result "WRONG"
          (Some <$> [absent; correct; absent; correct; absent])
          false true 7)].
Proof.
  split; [vm_compute; reflexivity|].
  split.
  { eexists. split; [vm_compute; reflexivity|].
    cbn [secret started guesses length]. auto. }
  split; vm_compute; reflexivity.
Qed.

Lemma join_refused_mid_round_witness :
  ∃ text,
    on_join "c" "ROOM01" (after round_started)
    = (after round_started, [(to_socket "c", error text)])
    ∧ (text = "Room full" ∨ text = "Game already in progress")
    ∧ recipients (after round_started) (to_socket "c") = ["c"].
Proof.
  apply (join_refused_mid_round (after round_started) "c" "ROOM01"
           (mkGame "CRANE" [] [] [setter; guesser] true (Some "a") true));
    vm_compute; reflexivity.
Defined.

Lemma join_starts_locked_round_witness :
  (started <$> games (on_join "b" "ROOM01" (after locked_waiting)).1
               !! "ROOM01") = Some true
  ∧ filter (fun e : Emit => e.2 = game_started)
      (on_join "b" "ROOM01" (after locked_waiting)).2
    = [(to_room "ROOM01", game_started)].
Proof.
  destruct (join_starts_locked_round (after locked_waiting) "b" "ROOM01"
              (mkGame "CRANE" [] [] [setter] false (Some "a") true))
    as (Hgame & _ & _ & Hone & _); try (vm_compute; reflexivity).
  split; [rewrite Hgame; reflexivity|exact Hone].
Defined.

Lemma set_word_guarded_witness :
  on_set_word "a" "ROOM01" "apple" (after locked_waiting)
  = (after locked_waiting, [])
  ∧ on_set_word "a" "ROOM01" "toolong"
      (after [ev_connection "a"; ev_create "a" "ROOM01"])
    = (after [ev_connection "a"; ev_create "a" "ROOM01"],
       [(to_socket "a", error "Invalid word")]).
Proof.
  split.
  - destruct (set_word_guarded (after locked_waiting) "a" "ROOM01" "apple"
                (mkGame "CRANE" [] [] [setter] false (Some "a") true))
      as (Hguard & _ & _); [vm_compute; reflexivity|].
    apply Hguard. left. reflexivity.
  - destruct (set_word_guarded
                (after [ev_connection "a"; ev_create "a" "ROOM01"])
                "a" "ROOM01" "toolong"
                (mkGame EmptyString [] [] [setter] false (Some "a") false))
      as (_ & Hword & _); [vm_compute; reflexivity|].
    apply Hword; reflexivity.
Defined.

(** ** Swapping roles *)

Lemma started_two_seats (w : Server) (room : string) (game : Game) :
  server_ok w → games w !! room = Some game → started game = true →
  players game = [setter; guesser] ∨ players game = [guesser; setter].
Proof.
  intros Hw Hgame Hstarted.
  destruct (Hw room game Hgame) as [Hseats _ Hstart _].
  destruct (Hstart Hstarted) as [Hg _].
  destruct Hseats as [H|[H|H]]; auto. rewrite H in Hg. discriminate.
Qed.

Lemma on_guess_dropped (w : Server) (id room guess : string) (game : Game) :
  games w !! room = Some game →
  truthy (secret game) = false ∨ started game = false →
  on_guess id room guess w = (w, []).
Proof.
  intros Hgame Hidle. unfold on_guess. rewrite Hgame.
  destruct Hidle as [H|H]; rewrite H; [reflexivity|].
  rewrite orb_true_r. reflexivity.
Qed.

(** C2, as the server has it.  In every reachable state every session,
    started or not, has one feedback row per guess, and that is all that
    bounds [guesses]: while
    the secret is set and the round started, a well-formed guess is
    appended to [guesses] and to the feedback history whatever came before
    it, a win or six guesses included.  A role swap empties both, clears
    the secret and [started], and from then on guesses are dropped. *)
Theorem guesses_not_capped (w : Server) (id room guess : string) (game : Game) :
  reachable w →
  games w !! room = Some game →
  truthy (secret game) = true → started game = true →
  is_word5 (toUpperCase guess) = true →
  length (feedbacks game) = length (guesses game)
  ∧ (∃ game',
        games (on_guess id room guess w).1 !! room = Some game'
        ∧ guesses game' = guesses game ++ [toUpperCase guess]
        ∧ feedbacks game'
          = feedbacks game ++ [evaluate (toUpperCase guess) (secret game)]
        ∧ secret game' = secret game ∧ started game' = true)
  ∧ (∀ id',
        let w' := (on_request_role_swap id' room w).1 in
        ∃ game',
          games w' !! room = Some game'
          ∧ secret game' = EmptyString ∧ guesses game' = [] ∧ feedbacks game' = []
          ∧ started game' = false
          ∧ ∀ id'' guess', on_guess id'' room guess' w' = (w', []))
  ∧ (∀ room' game',
        games w !! room' = Some game' →
        length (feedbacks game') = length (guesses game')).
Proof.
  intros Hreach Hgame Hsecret Hstarted Hword.
  pose proof (reachable_ok w Hreach) as Hw.
  split; [apply (ok_rows _ (Hw room game Hgame))|]. split; [|split].
  3:{ intros room' game' Hgame'. apply (ok_rows _ (Hw room' game' Hgame')). }
  - rewrite (on_guess_accepts w id room guess game) by assumption.
    eexists. split; [apply lookup_insert_eq|]. cbn. auto.
  - intros id' w'. subst w'. unfold on_request_role_swap.
    rewrite Hgame, Hstarted. cbn [negb].
    destruct (started_two_seats w room game Hw Hgame Hstarted) as [->| ->];
      cbn [fst games]; (eexists; split; [apply lookup_insert_eq|]);
      cbn [secret guesses feedbacks started]; repeat (split; [reflexivity|]);
      intros id'' guess'; (eapply on_guess_dropped;
        [cbn [games]; apply lookup_insert_eq|left; reflexivity]).
Qed.

Lemma guesses_not_capped_witness :
  ∃ game',
    games (on_guess "b" "ROOM01" "WRONG" (after six_misses)).1 !! "ROOM01"
    = Some game'
    ∧ length (guesses game') = 7%nat.
Proof.
  assert (reachable (after six_misses)) as Hreach
    by (exists six_misses; vm_compute; reflexivity).
  assert (games (after six_misses) !! "ROOM01"
          = Some (mkGame "CRANE"
                    ["MOUSE"; "TIGER"; "HORSE"; "SHEEP"; "ZEBRA"; "LLAMA"]
                    (map (fun g => evaluate g "CRANE")
                       ["MOUSE"; "TIGER"; "HORSE"; "SHEEP"; "ZEBRA"; "LLAMA"])
                    [setter; guesser] true (Some "a") true)) as Hgame
    by (vm_compute; reflexivity).
  destruct (guesses_not_capped (after six_misses) "b" "ROOM01" "WRONG" _
              Hreach Hgame eq_refl eq_refl eq_refl)
    as (_ & (game' & Hgame' & Hguesses & _) & _).
  exists game'. split; [exact Hgame'|]. rewrite Hguesses. reflexivity.
Defined.

(** C2 as stated fails: after six misses the round is over, yet the next
    guess is stored as the seventh; and after a win the next guess is
    stored as well. *)
Lemma guess_stored_after_round_over :
  run six_misses initial_server = Some (after six_misses)
  ∧ (length ∘ guesses) <$> games (after six_misses) !! "ROOM01" = Some 6%nat
  ∧ (length ∘ guesses)
      <$> games (on_guess "b" "ROOM01" "WRONG" (after six_misses)).1
          !! "ROOM01" = Some 7%nat
  ∧ run won_at_once initial_server = Some (after won_at_once)
  ∧ feedbacks <$> games (after won_at_once) !! "ROOM01"
    = Some [replicate 5 (Some correct)]
  ∧ guesses
      <$> games (on_guess "b" "ROOM01" "AGAIN" (after won_at_once)).1
          !! "ROOM01" = Some ["CRANE"; "AGAIN"].
Proof.
  split; [vm_compute; reflexivity|]. split; [vm_compute; reflexivity|].
  split; [vm_compute; reflexivity|]. split; [vm_compute; reflexivity|].
  split; vm_compute; reflexivity.
Qed.

Lemma find_other_pair (a b : string) (o : option string) :
  a ≠ b →
  (o = Some a → find_other o [a; b] = Some b)
  ∧ (o = Some b → find_other o [a; b] = Some a).
Proof.
  intros Hab. unfold find_other. cbn [List.find]. split; intros ->.
  - rewrite bool_decide_eq_false_2 by (intros H; apply H; reflexivity).
    rewrite bool_decide_eq_true_2 by congruence. reflexivity.
  - rewrite bool_decide_eq_true_2 by congruence. reflexivity.
Qed.

(** C7.  In a reachable state, [request-role-swap] on an unknown room, or
    on a session that is not both started and two-seated, changes nothing
    and sends nothing.  On a started session with two seats the session
    stays registered under its room code, other rooms are untouched, and
    afterwards secret, guesses and feedback history are empty, [locked]
    and [started] are false, and the two seats have exchanged their roles;
    when the room's two connections are a and b, the one that was not the
    setter connection becomes it, and each is told its new role. *)
Theorem role_swap_inverts (w : Server) (id room : string) :
  reachable w →
  let res := on_request_role_swap id room w in
  (games w !! room = None → res = (w, []))
  ∧ ∀ game, games w !! room = Some game →
      (¬ (started game = true ∧ length (players game) = 2%nat) →
         res = (w, []))
      ∧ (started game = true → length (players game) = 2%nat →
           ∃ game',
             games res.1 !! room = Some game'
             ∧ dom (games res.1) = dom (games w)
             ∧ (∀ r, r ≠ room → games res.1 !! r = games w !! r)
             ∧ secret game' = EmptyString ∧ guesses game' = [] ∧ feedbacks game' = []
             ∧ locked game' = false ∧ started game' = false
             ∧ players game' = reverse (players game)
             ∧ players game' = other_role <$> players game
             ∧ ∀ a b,
                 room_sockets (rooms w) room = [a; b] → a ≠ b →
                 truthy a = true → truthy b = true →
                 (setterSocketId game = Some a →
                    setterSocketId game' = Some b
                    ∧ res.2 = [(to_room a, roles_swapped guesser);
                               (to_room b, roles_swapped setter)])
                 ∧ (setterSocketId game = Some b →
                      setterSocketId game' = Some a
                      ∧ res.2 = [(to_room a, roles_swapped setter);
                                 (to_room b, roles_swapped guesser)])).
Proof.
  intros Hreach res. pose proof (reachable_ok w Hreach) as Hw.
  split.
  { intros Hnone. subst res. unfold on_request_role_swap. rewrite Hnone.
    reflexivity. }
  intros game Hgame. subst res. unfold on_request_role_swap. rewrite Hgame.
  split.
  - intros Hnot. destruct (started game) eqn:Hstarted; [|reflexivity].
    exfalso. apply Hnot. split; [reflexivity|].
    destruct (started_two_seats w room game Hw Hgame Hstarted) as [->| ->];
      reflexivity.
  - intros Hstarted _. rewrite Hstarted. cbn [negb].
    assert (∀ g', dom (<[room := g']> (games w)) = dom (games w)) as Hdom.
    { intros g'. rewrite dom_insert_L.
      assert (room ∈ dom (games w)) as Hin by (apply elem_of_dom; eauto).
      apply set_eq. intros x. rewrite elem_of_union, elem_of_singleton.
      split; [intros [->|Hx]; assumption|auto]. }
    destruct (started_two_seats w room game Hw Hgame Hstarted) as [Hps|Hps];
      rewrite Hps; cbn [fst snd games];
      (eexists; split; [apply lookup_insert_eq|]);
      (split; [apply Hdom|]);
      (split; [intros r Hr; apply lookup_insert_ne; congruence|]);
      cbn [secret guesses feedbacks locked started players setterSocketId];
      repeat (split; [reflexivity|]);
      intros a b Hroom Hab Ha Hb; rewrite Hroom;
      destruct (find_other_pair a b (setterSocketId game) Hab) as [Hfa Hfb];
      (split; intros Hset;
         [rewrite (Hfa Hset)|rewrite (Hfb Hset)]);
      cbn [id_or map]; rewrite ?Ha, ?Hb;
      (split; [reflexivity|]);
      rewrite (bool_decide_eq_true_2 _ eq_refl);
      rewrite bool_decide_eq_false_2 by congruence; reflexivity.
Qed.

Lemma role_swap_inverts_witness :
  ∃ game',
    games (on_request_role_swap "b" "ROOM01" (after won_at_once)).1
    !! "ROOM01" = Some game'
    ∧ game' = mkGame EmptyString [] [] [guesser; setter] false (Some "b") false
    ∧ (on_request_role_swap "b" "ROOM01" (after won_at_once)).2
      = [(to_room "a", roles_swapped guesser);
         (to_room "b", roles_swapped setter)].
Proof.
  destruct (role_swap_inverts (after won_at_once) "b" "ROOM01")
    as [_ Hswap]; [exists won_at_once; vm_compute; reflexivity|].
  destruct (Hswap (mkGame "CRANE" ["CRANE"] [replicate 5 (Some correct)]
                     [setter; guesser] true (Some "a") true))
    as [_ Hdone]; [vm_compute; reflexivity|].
  destruct Hdone as (game' & Hgame' & _); try reflexivity.
  exists game'. split; [exact Hgame'|].
  assert (games (on_request_role_swap "b" "ROOM01" (after won_at_once)).1
          !! "ROOM01"
          = Some (mkGame EmptyString [] [] [guesser; setter] false (Some "b") false))
    as Hlook by (vm_compute; reflexivity).
  rewrite Hlook in Hgame'. split; [congruence|vm_compute; reflexivity].
Defined.

(** ** What a handler can do to another room's session *)

Lemma on_join_updates (id r : string) (w : Server) :
  updates_at r (games w) (games (on_join id r w).1).
Proof.
  unfold on_join. destruct (games w !! r) as [game|] eqn:Hgame;
    [|left; reflexivity].
  destruct (has_role guesser (players game)); [left; reflexivity|].
  destruct (locked game && started game)%bool; [left; reflexivity|].
  right. exists game.
  destruct (locked _ && negb _)%bool; cbn [fst games]; eexists;
    (split; [exact Hgame|]); (split; [reflexivity|]); intros _ _;
    cbn [set_started set_players players]; rewrite has_role_app;
    apply orb_true_r.
Qed.

Lemma on_set_word_updates (id r word : string) (w : Server) :
  updates_at r (games w) (games (on_set_word id r word w).1).
Proof.
  unfold on_set_word. destruct (games w !! r) as [game|] eqn:Hgame;
    [|left; reflexivity].
  destruct (truthy (secret game) || _)%bool; [left; reflexivity|].
  destruct (is_word5 (toUpperCase word)); [|left; reflexivity].
  right. exists game. cbn [negb].
  destruct (has_role guesser (players (set_locked true _)));
    cbn [fst set_games games]; eexists;
    (split; [exact Hgame|]); (split; [reflexivity|]); intros _ H; exact H.
Qed.

Lemma on_guess_updates (id r guess : string) (w : Server) :
  updates_at r (games w) (games (on_guess id r guess w).1).
Proof.
  unfold on_guess. destruct (games w !! r) as [game|] eqn:Hgame;
    [|left; reflexivity].
  destruct (negb (truthy (secret game)) || _)%bool; [left; reflexivity|].
  destruct (is_word5 (toUpperCase guess)); [|left; reflexivity].
  right. exists game. cbn [negb fst set_games games]. eexists.
  split; [exact Hgame|]. split; [reflexivity|]. intros _ H. exact H.
Qed.

Lemma on_request_role_swap_updates (id r : string) (w : Server) :
  updates_at r (games w) (games (on_request_role_swap id r w).1).
Proof.
  unfold on_request_role_swap. destruct (games w !! r) as [game|] eqn:Hgame;
    [|left; reflexivity].
  destruct (started game); [|left; reflexivity]. cbn [negb].
  destruct (players game) as [|r1 [|r2 ps]] eqn:Hps;
    [left; reflexivity|left; reflexivity|].
  right. exists game. cbn [fst games]. eexists.
  split; [exact Hgame|]. split; [reflexivity|].
  intros [Hseats _ _ _] _. rewrite Hps in Hseats. cbn [players].
  destruct Hseats as [H|[H|H]]; [discriminate| |]; injection H as -> -> ->;
    reflexivity.
Qed.

Lemma updates_at_absent (r room : string) (m m' : gmap string Game) :
  updates_at r m m' → m !! room = None → m' !! room = None.
Proof.
  intros [->|(old & g & Hold & -> & _)] Hnone; [exact Hnone|].
  rewrite lookup_insert_ne by congruence. exact Hnone.
Qed.

Lemma updates_at_seated (r room : string) (m m' : gmap string Game)
    (game : Game) :
  updates_at r m m' → m !! room = Some game → game_ok game →
  has_role guesser (players game) = true →
  ∃ game', m' !! room = Some game'
           ∧ has_role guesser (players game') = true.
Proof.
  intros [->|(old & g & Hold & -> & Hkeep)] Hgame Hok Hseat; [eauto|].
  destruct (decide (r = room)) as [->|Hne].
  - rewrite lookup_insert_eq. rewrite Hgame in Hold. injection Hold as <-.
    eauto.
  - rewrite lookup_insert_ne by assumption. eauto.
Qed.

(** A room absent from the registry stays absent until its code is drawn
    again. *)
Lemma step_absent (e : Event) (w : Server) (room : string) :
  draws room e = false → games w !! room = None →
  games (step e w).1 !! room = None.
Proof.
  intros Hdraw Hnone. destruct e; cbn [step].
  - exact Hnone.
  - cbn [on_create fst games]. cbn [draws] in Hdraw.
    apply bool_decide_eq_false in Hdraw.
    rewrite lookup_insert_ne by assumption. exact Hnone.
  - eapply updates_at_absent; [apply on_join_updates|exact Hnone].
  - eapply updates_at_absent; [apply on_set_word_updates|exact Hnone].
  - eapply updates_at_absent; [apply on_guess_updates|exact Hnone].
  - eapply updates_at_absent; [apply on_request_role_swap_updates|exact Hnone].
  - unfold on_timeout. destruct (timers w) as [|[? ?] ?]; exact Hnone.
  - rewrite on_disconnect_lookup, Hnone. reflexivity.
Qed.

Lemma run_absent (tr : list Event) (w w' : Server) (room : string) :
  never_draws room tr = true → games w !! room = None →
  run tr w = Some w' → games w' !! room = None.
Proof.
  revert w. induction tr as [|e tr IH]; intros w Hdraw Hnone Hrun;
    cbn [run] in Hrun.
  - injection Hrun as <-. exact Hnone.
  - cbn [never_draws forallb] in Hdraw.
    apply andb_true_iff in Hdraw as [He Htr].
    apply negb_true_iff in He.
    destruct (enabled e w); [|discriminate].
    eapply IH; [exact Htr|apply step_absent; eassumption|exact Hrun].
Qed.

(** A seated guesser stays seated for as long as the session lives. *)
Lemma step_seated (e : Event) (w : Server) (room : string) (game : Game) :
  server_ok w → draws room e = false →
  games w !! room = Some game → has_role guesser (players game) = true →
  games (step e w).1 !! room = None
  ∨ ∃ game', games (step e w).1 !! room = Some game'
             ∧ has_role guesser (players game') = true.
Proof.
  intros Hw Hdraw Hgame Hseat. pose proof (Hw room game Hgame) as Hok.
  destruct e; cbn [step].
  - right. eauto.
  - right. cbn [on_create fst games]. cbn [draws] in Hdraw.
    apply bool_decide_eq_false in Hdraw.
    rewrite lookup_insert_ne by assumption. eauto.
  - right. eapply updates_at_seated; eauto using on_join_updates.
  - right. eapply updates_at_seated; eauto using on_set_word_updates.
  - right. eapply updates_at_seated; eauto using on_guess_updates.
  - right. eapply updates_at_seated; eauto using on_request_role_swap_updates.
  - right. unfold on_timeout. destruct (timers w) as [|[? ?] ?]; eauto.
  - rewrite on_disconnect_lookup, Hgame. cbn [mbind option_bind].
    unfold disconnect_game. destruct (bool_decide (length _ = 0%nat));
      [left; reflexivity|right].
    destruct (bool_decide (setterSocketId game = Some id)); eauto.
Qed.

Lemma run_seated (tr : list Event) (w w' : Server) (room : string)
    (game : Game) :
  server_ok w → never_draws room tr = true →
  games w !! room = Some game → has_role guesser (players game) = true →
  run tr w = Some w' →
  games w' !! room = None
  ∨ ∃ game', games w' !! room = Some game'
             ∧ has_role guesser (players game') = true.
Proof.
  revert w game. induction tr as [|e tr IH];
    intros w game Hw Hdraw Hgame Hseat Hrun; cbn [run] in Hrun.
  - injection Hrun as <-. eauto.
  - cbn [never_draws forallb] in Hdraw.
    apply andb_true_iff in Hdraw as [He Htr].
    apply negb_true_iff in He.
    destruct (enabled e w); [|discriminate].
    destruct (step_seated e w room game Hw He Hgame Hseat)
      as [Hnone|(game' & Hgame' & Hseat')].
    + left. eapply run_absent; eassumption.
    + eapply IH; [apply step_ok, Hw| | | |]; eassumption.
Qed.

(** ** Disconnecting *)

Lemma leave_all_sockets (id room : string) (rs : gmap string (list string)) :
  room_sockets (leave_all id rs) room
  = filter (fun x => x ≠ id) (room_sockets rs room).
Proof.
  unfold room_sockets, leave_all. rewrite lookup_omap.
  destruct (rs !! room) as [members|]; [|reflexivity].
  cbn. destruct (filter (fun x => x ≠ id) members); reflexivity.
Qed.

Lemma on_join_unknown (id room : string) (w : Server) :
  games w !! room = None →
  on_join id room w = (w, [(to_socket id, error "Room not found")]).
Proof. intros H. unfold on_join. rewrite H. reflexivity. Qed.

Lemma on_guess_unknown (id room guess : string) (w : Server) :
  games w !! room = None → on_guess id room guess w = (w, []).
Proof. intros H. unfold on_guess. rewrite H. reflexivity. Qed.

Lemma on_join_full (id room : string) (w : Server) (game : Game) :
  games w !! room = Some game → has_role guesser (players game) = true →
  on_join id room w = (w, [(to_socket id, error "Room full")]).
Proof. intros H Hg. unfold on_join. rewrite H, Hg. reflexivity. Qed.

(** C8.  When the only connection left in a room disconnects, the room's
    session is removed from the registry.  From then on, through any run
    in which that code is not drawn again for a new room, the session stays
    absent: every join on the code fails with "Room not found", sent to
    the joiner alone, and every guess on it changes nothing and sends
    nothing. *)
Theorem last_disconnect_removes_room (w : Server) (id room : string)
    (game : Game) :
  games w !! room = Some game →
  room_sockets (rooms w) room = [id] →
  let w' := (on_disconnect id w).1 in
  games w' !! room = None
  ∧ ∀ tr w'',
      never_draws room tr = true → run tr w' = Some w'' →
      games w'' !! room = None
      ∧ ∀ id' guess,
          on_join id' room w''
          = (w'', [(to_socket id', error "Room not found")])
          ∧ on_guess id' room guess w'' = (w'', []).
Proof.
  intros Hgame Hsole w'.
  assert (games w' !! room = None) as Hgone.
  { subst w'. rewrite on_disconnect_lookup, Hgame.
    cbn [mbind option_bind]. unfold disconnect_game.
    rewrite leave_all_sockets, Hsole. cbn [filter list_filter].
    rewrite decide_False by (intros H; apply H; reflexivity).
    reflexivity. }
  split; [exact Hgone|]. intros tr w'' Hdraw Hrun.
  pose proof (run_absent tr w' w'' room Hdraw Hgone Hrun) as Hnone.
  split; [exact Hnone|]. intros id' guess.
  split; [apply on_join_unknown|apply on_guess_unknown]; exact Hnone.
Qed.

Lemma last_disconnect_removes_room_witness :
  games (on_disconnect "a" (after guesser_left)).1 !! "ROOM01" = None
  ∧ on_join "c" "ROOM01"
      (step (ev_connection "c") (on_disconnect "a" (after guesser_left)).1).1
    = ((step (ev_connection "c")
          (on_disconnect "a" (after guesser_left)).1).1,
       [(to_socket "c", error "Room not found")]).
Proof.
  assert (games (after guesser_left) !! "ROOM01"
          = Some (mkGame "CRANE" [] [] [setter; guesser] true (Some "a") true))
    as Hgame by (vm_compute; reflexivity).
  assert (room_sockets (rooms (after guesser_left)) "ROOM01" = ["a"])
    as Hsole by (vm_compute; reflexivity).
  destruct (last_disconnect_removes_room (after guesser_left) "a" "ROOM01" _
              Hgame Hsole) as [Hgone Hlater].
  split; [exact Hgone|].
  assert (run [ev_connection "c"] (on_disconnect "a" (after guesser_left)).1
          = Some (step (ev_connection "c")
                    (on_disconnect "a" (after guesser_left)).1).1) as Hrun
    by (vm_compute; reflexivity).
  destruct (Hlater [ev_connection "c"] _ eq_refl Hrun) as [_ Hjoin].
  apply (Hjoin "c" "APPLE").
Defined.

(** C9.  The disconnect handler sends nothing, and of a session it only
    ever does two things: it removes the session when the room has no
    connection left, and otherwise it keeps players, secret, guesses,
    feedback history, locked and started as they are, touching
    [setterSocketId] only when the departing connection was the setter.
    So when a connection leaves a room that stays non-empty and whose
    guesser seat is taken, the seat stays taken: in a reachable state,
    through any later run in which the code is not drawn again, every join
    on the room fails, with "Room full" for as long as the session is
    registered (and with "Room not found" once it has been removed). *)
Theorem disconnect_keeps_seats (w : Server) (id room : string) (game : Game) :
  games w !! room = Some game →
  let w' := (on_disconnect id w).1 in
  (on_disconnect id w).2 = []
  ∧ match games w' !! room with
    | None => room_sockets (rooms w') room = []
    | Some game' =>
        room_sockets (rooms w') room ≠ []
        ∧ players game' = players game ∧ secret game' = secret game
        ∧ guesses game' = guesses game ∧ feedbacks game' = feedbacks game
        ∧ locked game' = locked game ∧ started game' = started game
        ∧ (setterSocketId game ≠ Some id → game' = game)
    end
  ∧ (reachable w → has_role guesser (players game) = true →
     room_sockets (rooms w') room ≠ [] →
     (∃ game', games w' !! room = Some game'
               ∧ has_role guesser (players game') = true)
     ∧ ∀ tr w'',
         never_draws room tr = true → run tr w' = Some w'' →
         ∀ id',
           (games w'' !! room ≠ None →
              on_join id' room w''
              = (w'', [(to_socket id', error "Room full")]))
           ∧ (games w'' !! room = None →
                on_join id' room w''
                = (w'', [(to_socket id', error "Room not found")]))).
Proof.
  intros Hgame w'. split; [reflexivity|].
  assert (games w' !! room
          = if bool_decide (length (room_sockets (rooms w') room) = 0%nat)
            then None
            else if bool_decide (setterSocketId game = Some id)
            then Some (set_setterSocketId
                         (id_or (find_other (Some id)
                                   (room_sockets (rooms w') room)) None) game)
            else Some game) as Hlook.
  { subst w'. rewrite on_disconnect_lookup, Hgame. reflexivity. }
  split.
  - rewrite Hlook. destruct (bool_decide _) eqn:Hempty.
    + apply bool_decide_eq_true in Hempty.
      destruct (room_sockets (rooms w') room); [reflexivity|discriminate].
    + apply bool_decide_eq_false in Hempty.
      assert (room_sockets (rooms w') room ≠ []) as Hne
        by (intros H; apply Hempty; rewrite H; reflexivity).
      destruct (bool_decide (setterSocketId game = Some id)) eqn:Hset;
        cbn [set_setterSocketId players secret guesses feedbacks locked
             started]; repeat (split; [auto; fail|]).
      * intros Hid. apply bool_decide_eq_true in Hset. contradiction.
      * reflexivity.
  - intros Hreach Hseat Hne.
    assert (∃ game', games w' !! room = Some game'
                     ∧ has_role guesser (players game') = true)
      as (game' & Hgame' & Hseat').
    { rewrite Hlook. rewrite bool_decide_eq_false_2
        by (intros H; apply Hne; destruct (room_sockets (rooms w') room);
            [reflexivity|discriminate]).
      destruct (bool_decide (setterSocketId game = Some id)); eauto. }
    split; [eauto|]. intros tr w'' Hdraw Hrun id'.
    split; [intros Hlive|apply on_join_unknown].
    assert (server_ok w') as Hw'
      by (apply on_disconnect_ok, reachable_ok, Hreach).
    destruct (run_seated tr w' w'' room game' Hw' Hdraw Hgame' Hseat' Hrun)
      as [Hnone|(game'' & Hgame'' & Hseat'')]; [contradiction|].
    eapply on_join_full; eassumption.
Qed.

Lemma disconnect_keeps_seats_witness :
  games (on_disconnect "b" (after both_seated)).1 !! "ROOM01"
  = Some (mkGame "CRANE" [] [] [setter; guesser] true (Some "a") true)
  ∧ on_join "c" "ROOM01"
      (step (ev_connection "c") (on_disconnect "b" (after both_seated)).1).1
    = ((step (ev_connection "c")
          (on_disconnect "b" (after both_seated)).1).1,
       [(to_socket "c", error "Room full")]).
Proof.
  assert (games (after both_seated) !! "ROOM01"
          = Some (mkGame "CRANE" [] [] [setter; guesser] true (Some "a") true))
    as Hgame by (vm_compute; reflexivity).
  destruct (disconnect_keeps_seats (after both_seated) "b" "ROOM01" _ Hgame)
    as (_ & _ & Hseat).
  split; [vm_compute; reflexivity|].
  destruct Hseat as [_ Hlater].
  - exists both_seated. vm_compute. reflexivity.
  - reflexivity.
  - vm_compute. discriminate.
  - assert (run [ev_connection "c"] (on_disconnect "b" (after both_seated)).1
            = Some (step (ev_connection "c")
                      (on_disconnect "b" (after both_seated)).1).1) as Hrun
      by (vm_compute; reflexivity).
    apply (Hlater [ev_connection "c"] _ eq_refl Hrun).
    vm_compute. discriminate.
Defined.

(** * Further properties of [evaluate] *)

(** Any two strings, of any length, give five marks and no hole; where
    the guess has run out, the mark is correct if the secret has run out
    too and absent if not. *)
Theorem evaluate_five_marks (guess secret : string) :
  ∃ row : list Mark,
    evaluate guess secret = Some <$> row
    ∧ length row = 5%nat
    ∧ ∀ i, (i < 5)%nat → char_at guess i = None →
        row !! i = Some (if decide (char_at secret i = None)
                         then correct else absent).
Proof.
  destruct (evaluate_row guess secret) as [Hdense Hrow].
  eexists. split; [exact Hdense|].
  split; [rewrite length_map, length_seq; reflexivity|].
  intros i Hi Hg. destruct (Hrow i Hi) as [_ ->]. f_equal.
  unfold slot_mark. rewrite Hg.
  destruct (decide (None = char_at secret i)) as [Heq|Hne].
  - rewrite decide_True by congruence. reflexivity.
  - rewrite decide_False by congruence. reflexivity.
Qed.

Lemma evaluate_five_marks_witness :
  ∃ row : list Mark,
    evaluate "AB" "ABC" = Some <$> row
    ∧ row !! 2%nat = Some absent ∧ row !! 3%nat = Some correct.
Proof.
  destruct (evaluate_five_marks "AB" "ABC") as (row & Hrow & _ & Hout).
  exists row. split; [exact Hrow|]. split.
  - apply (Hout 2%nat); [lia|reflexivity].
  - apply (Hout 3%nat); [lia|reflexivity].
Defined.

Lemma evaluate_get_slot (guess secret : string) (i : nat) :
  (i < 5)%nat →
  JsArray.get (evaluate guess secret) i
  = Some (slot_mark guess secret (evaluate guess secret) i).
Proof. intros Hi. apply (evaluate_inv guess secret). exact Hi. Qed.

Lemma evaluate_length (guess secret : string) :
  length (evaluate guess secret) = 5%nat.
Proof.
  destruct (evaluate_row guess secret) as [Hdense _]. rewrite Hdense.
  rewrite length_fmap, length_map, length_seq. reflexivity.
Qed.

Lemma word5_ext (s1 s2 : string) :
  length (chars s1) = 5%nat → length (chars s2) = 5%nat →
  (∀ i, (i < 5)%nat → char_at s1 i = char_at s2 i) → s1 = s2.
Proof.
  intros H1 H2 Hsame.
  rewrite <- (string_of_list_ascii_of_string s1).
  rewrite <- (string_of_list_ascii_of_string s2).
  f_equal. apply list_eq. intros i. fold (chars s1) (chars s2).
  destruct (decide (i < 5)%nat) as [Hi|Hi].
  - rewrite <- !char_at_chars. apply Hsame, Hi.
  - rewrite !lookup_ge_None_2 by lia. reflexivity.
Qed.

Lemma every_correct_positions (guess secret : string) :
  JsArray.every is_correct (evaluate guess secret) = true
  ↔ ∀ i, (i < 5)%nat → char_at guess i = char_at secret i.
Proof.
  rewrite every_correct_row. split.
  - intros Hall i Hi. apply (slot_mark_correct guess secret
                               (evaluate guess secret) i).
    pose proof (evaluate_get_slot guess secret i Hi) as Hslot.
    rewrite Hall in Hslot at 1. unfold JsArray.get in Hslot.
    rewrite lookup_replicate_2 in Hslot by assumption.
    cbn in Hslot. congruence.
  - intros Hall.
    apply (dense_row (evaluate guess secret) (fun _ => correct)).
    + apply evaluate_length.
    + intros i Hi. rewrite (evaluate_get_slot guess secret i Hi).
      f_equal. apply slot_mark_correct, Hall, Hi.
Qed.

Lemma every_correct_same_word (guess secret : string) :
  is_word5 guess = true → is_word5 secret = true →
  JsArray.every is_correct (evaluate guess secret)
  = bool_decide (guess = secret).
Proof.
  intros Hg Hs. apply eq_true_iff_eq.
  rewrite every_correct_positions, bool_decide_eq_true. split.
  - apply word5_ext; apply is_word5_length; assumption.
  - intros <- i _. reflexivity.
Qed.

(** The row is all correct exactly when guess and secret agree on the
    five positions; for two five-letter words, exactly when they are the
    same word. *)
Theorem evaluate_all_correct_iff (guess secret : string) :
  (JsArray.every is_correct (evaluate guess secret) = true
   ↔ ∀ i, (i < 5)%nat → char_at guess i = char_at secret i)
  ∧ (is_word5 guess = true → is_word5 secret = true →
     (JsArray.every is_correct (evaluate guess secret) = true
      ↔ guess = secret)).
Proof.
  split; [apply every_correct_positions|]. intros Hg Hs.
  rewrite (every_correct_same_word guess secret Hg Hs).
  apply bool_decide_eq_true.
Qed.

Lemma evaluate_all_correct_iff_witness :
  (JsArray.every is_correct (evaluate "CRANE" "CRANE") = true
   ↔ "CRANE" = "CRANE")
  ∧ (JsArray.every is_correct (evaluate "CRATE" "CRANE") = true
     ↔ "CRATE" = "CRANE").
Proof.
  split.
  - apply (evaluate_all_correct_iff "CRANE" "CRANE"); reflexivity.
  - apply (evaluate_all_correct_iff "CRATE" "CRANE"); reflexivity.
Defined.

(** The mark of a letter: correct exactly when the secret has that letter
    at that position; present only for a letter the secret has somewhere
    else; and a letter the secret does not have is always absent. *)
Theorem evaluate_letter_marks (guess secret : string) (i : nat) (c : ascii) :
  (i < 5)%nat → char_at guess i = Some c →
  let m := JsArray.get (evaluate guess secret) i in
  (m = Some correct ↔ char_at secret i = Some c)
  ∧ (m = Some present → c ∈ chars secret ∧ char_at secret i ≠ Some c)
  ∧ (c ∉ chars secret → m = Some absent).
Proof.
  intros Hi Hg m. subst m. rewrite (evaluate_get_slot guess secret i Hi).
  split; [|split].
  - split.
    + intros [= Hm]. apply slot_mark_correct in Hm. congruence.
    + intros Hs. f_equal. apply slot_mark_correct. congruence.
  - intros [= Hm]. unfold slot_mark in Hm.
    destruct (decide (char_at guess i = char_at secret i)); [discriminate|].
    rewrite Hg in Hm.
    destruct (0 <? left_over guess secret (evaluate guess secret) c i)
      eqn:Hlt; [|discriminate].
    apply Z.ltb_lt in Hlt. split; [|congruence].
    apply occurrences_pos_in. intros Hocc.
    pose proof (left_over_no_letter guess secret (evaluate guess secret) c i
                  Hocc). lia.
  - intros Hnot. f_equal. unfold slot_mark.
    assert (occurrences c secret = O) as Hocc.
    { destruct (occurrences c secret) eqn:Ho; [reflexivity|].
      exfalso. apply Hnot, occurrences_pos_in. lia. }
    rewrite decide_False.
    + rewrite Hg.
      pose proof (left_over_no_letter guess secret (evaluate guess secret) c i
                    Hocc) as Hle.
      apply Z.ltb_ge in Hle. rewrite Hle. reflexivity.
    + intros Heq. apply Hnot. rewrite Hg in Heq.
      apply occurrences_pos_in.
      apply (char_at_occurrences c secret i). congruence.
Qed.

Lemma evaluate_letter_marks_witness :
  (JsArray.get (evaluate "LLAMA" "ALLOY") 0 = Some present
   → "L"%char ∈ chars "ALLOY" ∧ char_at "ALLOY" 0 ≠ Some "L"%char)
  ∧ ("M"%char ∉ chars "ALLOY"
     → JsArray.get (evaluate "LLAMA" "ALLOY") 3 = Some absent).
Proof.
  split.
  - apply (evaluate_letter_marks "LLAMA" "ALLOY" 0 "L"); [lia|reflexivity].
  - apply (evaluate_letter_marks "LLAMA" "ALLOY" 3 "M"); [lia|reflexivity].
Defined.

(** Counting a letter by index over the whole list is its multiplicity. *)
Lemma count_lookup_eq (c : ascii) (l : list ascii) :
  count_upto (fun j => bool_decide (l !! j = Some c)) (length l)
  = length (filter (fun x => x = c) l).
Proof.
  induction l as [|a l IH]; [reflexivity|].
  cbn [length]. rewrite count_upto_shift. cbn [lookup list_lookup].
  rewrite filter_cons. fold (@lookup nat ascii (list ascii) _).
  destruct (decide (a = c)) as [->|Hne].
  - rewrite bool_decide_eq_true_2 by reflexivity. cbn [length].
    f_equal. exact IH.
  - rewrite bool_decide_eq_false_2 by congruence. exact IH.
Qed.

Lemma occurrences_word5 (c : ascii) (s : string) :
  is_word5 s = true →
  occurrences c s
  = count_upto (fun j => bool_decide (char_at s j = Some c)) 5.
Proof.
  intros Hs. unfold occurrences. rewrite <- count_lookup_eq.
  rewrite (is_word5_length s Hs). apply count_upto_ext.
  intros j _. rewrite char_at_chars. reflexivity.
Qed.

(** How the rewarded positions of a letter grow along the guess: never
    beyond the letter's positions in the guess, and short of them only
    once the secret's supply of the letter is used up. *)
Lemma rewarded_upto (guess secret : string) (c : ascii) (n : nat) :
  (n ≤ 5)%nat →
  let a := evaluate guess secret in
  let seen := count_upto (fun j => bool_decide (char_at guess j = Some c)) n in
  (exact guess secret c n + present_upto guess a c n ≤ seen)%nat
  ∧ ((exact guess secret c n + present_upto guess a c n = seen)%nat
     ∨ (occurrences c secret
        ≤ exact guess secret c 5 + present_upto guess a c n)%nat).
Proof.
  intros Hn a. induction n as [|n IH]; [cbn; lia|].
  specialize (IH ltac:(lia)). cbv zeta in IH. destruct IH as [Hle Hcase].
  pose proof (evaluate_get_slot guess secret n ltac:(lia)) as Hslot.
  fold a in Hslot. cbv zeta. rewrite exact_S. unfold present_upto in *.
  cbn [count_upto]. rewrite Hslot.
  destruct (decide (char_at guess n = Some c)) as [Hg|Hg].
  - rewrite (bool_decide_eq_true_2 _ Hg).
    unfold slot_mark.
    destruct (decide (char_at guess n = char_at secret n)) as [Heq|Hne].
    + rewrite bool_decide_eq_true_2 by (split; congruence).
      rewrite bool_decide_eq_false_2 by (intros [? _]; discriminate). lia.
    + rewrite bool_decide_eq_false_2 by (intros [? ?]; congruence).
      rewrite Hg.
      destruct (0 <? left_over guess secret a c n) eqn:Hlt.
      * rewrite bool_decide_eq_true_2 by (split; reflexivity). lia.
      * rewrite bool_decide_eq_false_2 by (intros [? _]; discriminate).
        apply Z.ltb_ge in Hlt. unfold left_over, present_upto in Hlt. lia.
  - rewrite (bool_decide_eq_false_2 _ Hg).
    rewrite bool_decide_eq_false_2 by (intros [? _]; contradiction).
    rewrite bool_decide_eq_false_2 by (intros [_ ?]; contradiction). lia.
Qed.

(** For a five-letter guess, the positions of a letter that are marked
    correct or present are as many as the guess has of the letter or as
    the secret has, whichever is less. *)
Theorem evaluate_rewards_min (guess secret : string) (c : ascii) :
  is_word5 guess = true →
  ∃ row : list Mark,
    evaluate guess secret = Some <$> row
    ∧ (marked guess row correct c 5 + marked guess row present c 5)%nat
      = (occurrences c guess `min` occurrences c secret)%nat.
Proof.
  intros Hguess. destruct (evaluate_row guess secret) as [Hdense _].
  eexists. split; [exact Hdense|].
  rewrite (exact_marked guess secret c).
  rewrite (present_marked guess secret c 5 (le_n 5)).
  rewrite (occurrences_word5 c guess Hguess).
  destruct (rewarded_upto guess secret c 5 (le_n 5)) as [Hle Hcase].
  destruct (evaluate_inv guess secret) as (_ & _ & Hpos).
  specialize (Hpos c). unfold left_over in Hpos. lia.
Qed.

Lemma evaluate_rewards_min_witness :
  ∃ row : list Mark,
    evaluate "LLAMA" "ALLOY" = Some <$> row
    ∧ (marked "LLAMA" row correct "A" 5 + marked "LLAMA" row present "A" 5)%nat
      = 1%nat.
Proof.
  destruct (evaluate_rewards_min "LLAMA" "ALLOY" "A" eq_refl)
    as (row & Hrow & Hmin).
  exists row. split; [exact Hrow|]. rewrite Hmin. reflexivity.
Defined.

(** * Which words the handlers accept *)

Lemma chars_length (s : string) : length (chars s) = String.length s.
Proof. induction s as [|c s IH]; [reflexivity|]. cbn. f_equal. exact IH. Qed.

Lemma chars_append (s1 s2 : string) :
  chars (String.append s1 s2) = chars s1 ++ chars s2.
Proof.
  induction s1 as [|c s1 IH]; [reflexivity|].
  change (c :: chars (String.append s1 s2) = c :: (chars s1 ++ chars s2)).
  f_equal. exact IH.
Qed.

Lemma chars_toUpperCase (c : ascii) (s : string) :
  chars (toUpperCase (String c s))
  = chars (upper_char c) ++ chars (toUpperCase s).
Proof. apply chars_append. Qed.

(** Character by character, the string held here and the code units
    JavaScript produces agree on what the pattern looks at. *)
Lemma upper_char_units_upper (c : ascii) :
  forallb is_upper (chars (upper_char c))
  = forallb (fun n => ((65 <=? n)%N && (n <=? 90)%N)%bool) (upper_units c).
Proof. destruct c as [[] [] [] [] [] [] [] []]; reflexivity. Qed.

Lemma upper_char_units_length (c : ascii) :
  length (chars (upper_char c)) = length (upper_units c).
Proof. destruct c as [[] [] [] [] [] [] [] []]; reflexivity. Qed.

Lemma upper_char_units_same (c : ascii) :
  forallb (fun n => ((65 <=? n)%N && (n <=? 90)%N)%bool) (upper_units c) = true →
  map N_of_ascii (chars (upper_char c)) = upper_units c.
Proof.
  destruct c as [[] [] [] [] [] [] [] []]; intros H;
    solve [reflexivity | discriminate H].
Qed.

Lemma upper_char_letters (c : ascii) :
  forallb is_upper (chars (upper_char c)) = (is_letter c || is_sharp_s c)%bool.
Proof. destruct c as [[] [] [] [] [] [] [] []]; reflexivity. Qed.

Lemma upper_char_width (c : ascii) :
  (is_letter c || is_sharp_s c)%bool = true →
  length (chars (upper_char c)) = upper_width c.
Proof.
  destruct c as [[] [] [] [] [] [] [] []]; intros H;
    solve [reflexivity | discriminate H].
Qed.

(** Upper-casing and then testing against the pattern, as [set-word] and
    [guess] do, on a word of code units up to U+00FF: the string held
    here gets the verdict JavaScript's code units get, and an accepted
    word is those very code units.  Accepted are exactly the words made
    of ASCII letters, of either case, and sharp s that have five letters
    when a sharp s counts twice, as it becomes SS. *)
Theorem accepted_words (s : string) :
  is_word5 (toUpperCase s) = is_word5_units (toUpperCase_units s)
  ∧ (is_word5 (toUpperCase s) = true →
     map N_of_ascii (chars (toUpperCase s)) = toUpperCase_units s)
  ∧ (is_word5 (toUpperCase s) = true
     ↔ forallb (fun c => (is_letter c || is_sharp_s c)%bool) (chars s) = true
       ∧ sum_list (map upper_width (chars s)) = 5%nat).
Proof.
  set (in_AZ := fun n : N => ((65 <=? n)%N && (n <=? 90)%N)%bool).
  set (lettered := fun c => (is_letter c || is_sharp_s c)%bool).
  assert (∀ t, forallb is_upper (chars (toUpperCase t))
               = forallb in_AZ (toUpperCase_units t)) as Hupper.
  { induction t as [|c t IH]; [reflexivity|].
    rewrite chars_toUpperCase. unfold toUpperCase_units.
    cbn [chars list_ascii_of_string flat_map].
    rewrite !forallb_app, upper_char_units_upper. f_equal. exact IH. }
  assert (∀ t, length (chars (toUpperCase t)) = length (toUpperCase_units t))
    as Hlen.
  { induction t as [|c t IH]; [reflexivity|].
    rewrite chars_toUpperCase. unfold toUpperCase_units.
    cbn [chars list_ascii_of_string flat_map].
    rewrite !length_app, upper_char_units_length. f_equal. exact IH. }
  assert (∀ t, forallb in_AZ (toUpperCase_units t) = true →
               map N_of_ascii (chars (toUpperCase t)) = toUpperCase_units t)
    as Hsame.
  { induction t as [|c t IH]; [reflexivity|].
    rewrite chars_toUpperCase. unfold toUpperCase_units.
    cbn [chars list_ascii_of_string flat_map].
    rewrite forallb_app, map_app. intros H.
    apply andb_true_iff in H as [Hc Ht].
    rewrite (upper_char_units_same c Hc). f_equal. apply IH, Ht. }
  assert (∀ t, forallb is_upper (chars (toUpperCase t))
               = forallb lettered (chars t)) as Hletters.
  { induction t as [|c t IH]; [reflexivity|].
    rewrite chars_toUpperCase.
    cbn [chars list_ascii_of_string forallb].
    rewrite forallb_app, upper_char_letters. f_equal. exact IH. }
  assert (∀ t, forallb lettered (chars t) = true →
               length (chars (toUpperCase t))
               = sum_list (map upper_width (chars t))) as Hwidth.
  { induction t as [|c t IH]; [reflexivity|].
    rewrite chars_toUpperCase.
    cbn [chars list_ascii_of_string forallb map sum_list sum_list_with].
    intros H. apply andb_true_iff in H as [Hc Ht].
    rewrite length_app, (upper_char_width c Hc). f_equal. apply IH, Ht. }
  split; [|split].
  - unfold is_word5, is_word5_units. fold in_AZ. rewrite Hupper, Hlen.
    reflexivity.
  - unfold is_word5. intros H. apply andb_true_iff in H as [H _].
    apply Hsame. rewrite <- Hupper. exact H.
  - unfold is_word5. fold lettered.
    rewrite andb_true_iff, Nat.eqb_eq, Hletters. split.
    + intros [Hall H5]. split; [exact Hall|]. rewrite <- (Hwidth s Hall).
      exact H5.
    + intros [Hall H5]. split; [exact Hall|]. rewrite (Hwidth s Hall).
      exact H5.
Qed.

Lemma accepted_words_witness :
  toUpperCase masse = "MASSE"
  ∧ map N_of_ascii (chars (toUpperCase masse)) = toUpperCase_units masse.
Proof.
  split; [reflexivity|].
  apply (accepted_words masse). reflexivity.
Defined.

(** The two units whose upper-case forms lie beyond U+00FF: the code
    units are JavaScript's, the string keeps the unit itself. *)
Example upper_units_beyond_latin1 :
  upper_units (ascii_of_N 181) = [924%N]
  ∧ upper_units (ascii_of_N 255) = [376%N]
  ∧ upper_char (ascii_of_N 181) = String (ascii_of_N 181) EmptyString
  ∧ upper_char (ascii_of_N 255) = String (ascii_of_N 255) EmptyString.
Proof. repeat split; by_running. Qed.

(** The word with the sharp s is locked as MASSE. *)
Example set_word_sharp_s :
  on_set_word "a" "ROOM01" masse
    (after [ev_connection "a"; ev_create "a" "ROOM01"])
  = (after [ev_connection "a"; ev_create "a" "ROOM01";
            ev_set_word "a" "ROOM01" "MASSE"], []).
Proof. by_running. Qed.

(** * The round data of reachable sessions *)

Lemma rounds_ok_insert (w w' : Server) (room : string) (g : Game) :
  rounds_ok w → games w' = <[room := g]> (games w) → round_ok g →
  rounds_ok w'.
Proof.
  intros Hw Hgames Hg r g' Hr. rewrite Hgames in Hr.
  destruct (decide (room = r)) as [->|Hne].
  - rewrite lookup_insert_eq in Hr. injection Hr as <-. exact Hg.
  - rewrite lookup_insert_ne in Hr by assumption. eapply Hw, Hr.
Qed.

Lemma fresh_round_ok (ps : list Role) (b l : bool) (sid : option string) :
  round_ok (mkGame EmptyString [] [] ps b sid l).
Proof. constructor; cbn; auto. Qed.

Lemma step_rounds_ok (e : Event) (w : Server) :
  server_ok w → rounds_ok w → rounds_ok (step e w).1.
Proof.
  intros Hw Hr. destruct e; cbn [step].
  - exact Hr.
  - eapply (rounds_ok_insert w); [exact Hr|reflexivity|].
    apply fresh_round_ok.
  - unfold on_join.
    destruct (games w !! room) as [game|] eqn:Hgame; [|exact Hr].
    destruct (has_role guesser (players game)); [exact Hr|].
    destruct (locked game && started game)%bool; [exact Hr|].
    destruct (Hr room game Hgame) as [Hsecret Hidle Hguesses Hfb].
    destruct (locked _ && negb _)%bool; cbn [fst games];
      (eapply (rounds_ok_insert w); [exact Hr|reflexivity|]);
      constructor; cbn; auto; discriminate.
  - unfold on_set_word.
    destruct (games w !! room) as [game|] eqn:Hgame; [|exact Hr].
    destruct (truthy (secret game)) eqn:Hs; [exact Hr|].
    destruct (bool_decide (setterSocketId game = Some id)); [|exact Hr].
    cbn [negb orb].
    destruct (is_word5 (toUpperCase word)) eqn:Hword; [|exact Hr].
    destruct (Hr room game Hgame) as [Hsecret Hidle Hguesses Hfb].
    destruct (Hw room game Hgame) as [_ _ Hstart Hlock].
    assert (guesses game = []) as Hnone.
    { apply Hidle. destruct (started game); [|reflexivity].
      destruct (Hstart eq_refl) as [_ Hl]. congruence. }
    cbn [negb]. destruct (has_role guesser _); cbn [fst set_games games];
      (eapply (rounds_ok_insert w); [exact Hr|reflexivity|]);
      constructor; cbn; rewrite ?Hnone; auto.
    rewrite Hfb, Hnone. reflexivity.
    rewrite Hfb, Hnone. reflexivity.
  - unfold on_guess.
    destruct (games w !! room) as [game|] eqn:Hgame; [|exact Hr].
    destruct (truthy (secret game)); [|exact Hr].
    destruct (started game) eqn:Hstarted; [|exact Hr]. cbn [negb orb].
    destruct (is_word5 (toUpperCase guess)) eqn:Hword; [|exact Hr].
    destruct (Hr room game Hgame) as [Hsecret Hidle Hguesses Hfb].
    cbn [negb fst set_games games].
    eapply (rounds_ok_insert w); [exact Hr|reflexivity|].
    constructor; cbn; auto.
    + congruence.
    + apply Forall_app. split; [exact Hguesses|]. constructor; [exact Hword|].
      constructor.
    + rewrite map_app, Hfb. reflexivity.
  - unfold on_request_role_swap.
    destruct (games w !! room) as [game|] eqn:Hgame; [|exact Hr].
    destruct (started game); [|exact Hr]. cbn [negb].
    destruct (players game) as [|r1 [|r2 ps]]; [exact Hr|exact Hr|].
    cbn [fst games]. eapply (rounds_ok_insert w); [exact Hr|reflexivity|].
    apply fresh_round_ok.
  - unfold on_timeout. destruct (timers w) as [|[? ?] ?]; exact Hr.
  - intros room g Hg. rewrite on_disconnect_lookup in Hg.
    destruct (games w !! room) as [game|] eqn:Hgame; [|discriminate].
    cbn [mbind option_bind] in Hg. unfold disconnect_game in Hg.
    destruct (Hr room game Hgame) as [Hsecret Hidle Hguesses Hfb].
    destruct (bool_decide (length _ = 0%nat)); [discriminate|].
    destruct (bool_decide (setterSocketId game = Some id));
      injection Hg as <-; constructor; cbn; auto.
Qed.

Lemma run_rounds_ok (tr : list Event) (w w' : Server) :
  server_ok w → rounds_ok w → run tr w = Some w' → rounds_ok w'.
Proof.
  revert w. induction tr as [|e tr IH]; intros w Hw Hr Hrun;
    cbn [run] in Hrun.
  - injection Hrun as <-. exact Hr.
  - destruct (enabled e w); [|discriminate].
    eapply IH; [apply step_ok, Hw|apply step_rounds_ok; assumption|exact Hrun].
Qed.

Lemma reachable_rounds_ok (w : Server) : reachable w → rounds_ok w.
Proof.
  intros [tr Hrun]. eapply run_rounds_ok; [apply initial_ok| |exact Hrun].
  intros room g H. cbn in H. rewrite lookup_empty in H. discriminate.
Qed.

(** In every reachable state and for every session: the secret is unset
    or five letters A-Z, and [locked] says which; a started round has its
    word and both seats; a round that is not started has no guesses and
    no feedback; every stored guess is five letters A-Z; and the feedback
    history is, row by row, the evaluation of the guesses against the
    secret. *)
Theorem reachable_round_shape (w : Server) (room : string) (g : Game) :
  reachable w → games w !! room = Some g →
  (secret g = EmptyString ∨ is_word5 (secret g) = true)
  ∧ locked g = truthy (secret g)
  ∧ (started g = true →
       is_word5 (secret g) = true ∧ length (players g) = 2%nat)
  ∧ (started g = false → guesses g = [] ∧ feedbacks g = [])
  ∧ Forall (fun x => is_word5 x = true) (guesses g)
  ∧ feedbacks g = map (fun x => evaluate x (secret g)) (guesses g).
Proof.
  intros Hreach Hgame.
  pose proof (reachable_ok w Hreach) as Hw.
  destruct (reachable_rounds_ok w Hreach room g Hgame)
    as [Hsecret Hidle Hguesses Hfb].
  destruct (Hw room g Hgame) as [_ _ Hstart Hlock].
  split; [exact Hsecret|]. split; [exact Hlock|].
  split; [|split; [|split; assumption]].
  - intros Hs. destruct (Hstart Hs) as [_ Hl]. split.
    + destruct Hsecret as [He|Hword]; [|exact Hword].
      rewrite Hlock, He in Hl. discriminate.
    + destruct (started_two_seats w room g Hw Hgame Hs) as [->| ->];
        reflexivity.
  - intros Hs. rewrite Hfb, (Hidle Hs). split; reflexivity.
Qed.

Lemma reachable_round_shape_witness :
  ∃ g, games (after six_misses) !! "ROOM01" = Some g
       ∧ is_word5 (secret g) = true
       ∧ feedbacks g = map (fun x => evaluate x (secret g)) (guesses g).
Proof.
  assert (reachable (after six_misses)) as Hreach
    by (exists six_misses; vm_compute; reflexivity).
  assert (games (after six_misses) !! "ROOM01"
          = Some (mkGame "CRANE"
                    ["MOUSE"; "TIGER"; "HORSE"; "SHEEP"; "ZEBRA"; "LLAMA"]
                    (map (fun g => evaluate g "CRANE")
                       ["MOUSE"; "TIGER"; "HORSE"; "SHEEP"; "ZEBRA"; "LLAMA"])
                    [setter; guesser] true (Some "a") true)) as Hgame
    by (vm_compute; reflexivity).
  destruct (reachable_round_shape (after six_misses) "ROOM01" _ Hreach Hgame)
    as (_ & _ & Hstarted & _ & _ & Hfb).
  eexists. split; [exact Hgame|]. split; [|exact Hfb].
  apply Hstarted. reflexivity.
Defined.

(** * Winning *)

(** In a started round of a reachable state, the [won] flag broadcast for
    a well-formed guess says whether the upper-cased guess is the secret. *)
Theorem won_iff_secret_found (w : Server) (id room guess : string)
    (game : Game) :
  reachable w → games w !! room = Some game →
  truthy (secret game) = true → started game = true →
  is_word5 (toUpperCase guess) = true →
  ∃ fb over n,
    (on_guess id room guess w).2
    = [(to_room room,
        guess_result (toUpperCase guess) fb
          (bool_decide (toUpperCase guess = secret game)) over n)].
Proof.
  intros Hreach Hgame Hsecret Hstarted Hword.
  rewrite (on_guess_accepts w id room guess game) by assumption.
  cbn [snd]. eexists _, _, _.
  rewrite (every_correct_same_word (toUpperCase guess) (secret game) Hword).
  - reflexivity.
  - destruct (reachable_rounds_ok w Hreach room game Hgame) as [Hs _ _ _].
    destruct Hs as [He|Hs]; [|exact Hs]. rewrite He in Hsecret. discriminate.
Qed.

Lemma won_iff_secret_found_witness :
  ∃ fb over n,
    (on_guess "b" "ROOM01" "Crane" (after six_misses)).2
    = [(to_room "ROOM01", guess_result "CRANE" fb true over n)].
Proof.
  assert (reachable (after six_misses)) as Hreach
    by (exists six_misses; vm_compute; reflexivity).
  assert (games (after six_misses) !! "ROOM01"
          = Some (mkGame "CRANE"
                    ["MOUSE"; "TIGER"; "HORSE"; "SHEEP"; "ZEBRA"; "LLAMA"]
                    (map (fun g => evaluate g "CRANE")
                       ["MOUSE"; "TIGER"; "HORSE"; "SHEEP"; "ZEBRA"; "LLAMA"])
                    [setter; guesser] true (Some "a") true)) as Hgame
    by (vm_compute; reflexivity).
  exact (won_iff_secret_found (after six_misses) "b" "ROOM01" "Crane" _
           Hreach Hgame eq_refl eq_refl eq_refl).
Defined.

(** * Joining, in reachable states *)

(** In a reachable state a started round always has its guesser seated,
    so a join is answered "Room full" before the in-progress test is
    reached: no join is ever answered "Game already in progress". *)
Theorem join_in_progress_unreachable (w : Server) (id room : string) :
  reachable w →
  ∀ e, e ∈ (on_join id room w).2 → e.2 ≠ error "Game already in progress".
Proof.
  intros Hreach e He. pose proof (reachable_ok w Hreach) as Hw.
  unfold on_join in He.
  destruct (games w !! room) as [game|] eqn:Hgame.
  - destruct (has_role guesser (players game)) eqn:Hfull.
    + apply list_elem_of_singleton in He as ->. discriminate.
    + destruct (locked game && started game)%bool eqn:Hbusy.
      * apply andb_true_iff in Hbusy as [_ Hs].
        destruct (ok_started _ (Hw room game Hgame) Hs) as [Hg _].
        congruence.
      * cbn [snd] in He.
        destruct (locked _ && negb _)%bool; cbn [snd] in He;
          destruct (in_room _ _ _ _);
          repeat (apply elem_of_cons in He as [->|He]; [discriminate|]);
          apply elem_of_nil in He; contradiction.
  - apply list_elem_of_singleton in He as ->. discriminate.
Qed.

Lemma join_in_progress_unreachable_witness :
  (on_join "c" "ROOM01" (after round_started)).2
  = [(to_socket "c", error "Room full")]
  ∧ ∀ e, e ∈ (on_join "c" "ROOM01" (after round_started)).2 →
         e.2 ≠ error "Game already in progress".
Proof.
  split; [vm_compute; reflexivity|].
  apply (join_in_progress_unreachable (after round_started) "c" "ROOM01").
  exists round_started. vm_compute. reflexivity.
Defined.

(** * Opening a round *)

Lemma on_join_waiting (b room : string) (w : Server) (game : Game) :
  games w !! room = Some game →
  has_role guesser (players game) = false → started game = false →
  on_join b room w
  = (mkServer
       (<[room := set_started (locked game)
                    (set_players (players game ++ [guesser]) game)]>
          (games w))
       (sockets w) (socket_join b room (rooms w)) (timers w),
     [(to_socket b, room_joined room guesser)]
     ++ (if in_room (sockets w) (socket_join b room (rooms w))
              (default EmptyString (setterSocketId game)) room
         then [(to_socket (default EmptyString (setterSocketId game)),
                opponent_joined)]
         else [])
     ++ (if locked game then [(to_room room, game_started)] else [])).
Proof.
  intros Hgame Hfree Hidle. unfold on_join.
  rewrite Hgame, Hfree, Hidle, andb_false_r.
  cbn [set_players locked started setterSocketId]. rewrite Hidle.
  destruct (locked game) eqn:Hl; cbn [andb negb].
  - reflexivity.
  - f_equal. f_equal. f_equal. destruct game; cbn in *. subst. reflexivity.
Qed.

Lemma on_set_word_accepts (id room word : string) (w : Server) (game : Game) :
  games w !! room = Some game →
  truthy (secret game) = false → setterSocketId game = Some id →
  is_word5 (toUpperCase word) = true →
  on_set_word id room word w
  = (set_games
       (<[room := mkGame (toUpperCase word) (guesses game) (feedbacks game)
                    (players game)
                    (has_role guesser (players game) || started game)
                    (setterSocketId game) true]> (games w)) w,
     if has_role guesser (players game)
     then [(to_room room, game_started)] else []).
Proof.
  intros Hgame Hs Hid Hword. unfold on_set_word.
  rewrite Hgame, Hs, (bool_decide_eq_true_2 _ Hid). cbn [negb orb].
  rewrite Hword. cbn [negb set_locked set_secret players].
  destruct (has_role guesser (players game)); reflexivity.
Qed.

Lemma steps_two (e1 e2 : Event) (w : Server) :
  steps [e1; e2] w
  = ((step e2 (step e1 w).1).1, (step e1 w).2 ++ (step e2 (step e1 w).1).2).
Proof.
  cbn [steps]. destruct (step e1 w) as [w1 o1]. cbn [fst snd].
  destruct (step e2 w1) as [w2 o2]. cbn [fst snd].
  rewrite app_nil_r. reflexivity.
Qed.

(** After a room is created, the guesser joining and the setter locking a
    valid word may come in either order: the server ends in the same
    state, with the upper-cased word as secret and the round started, and
    has sent the same messages in the same order, among them exactly one
    [game-started]. *)
Theorem join_and_lock_commute (w : Server) (a b room word : string) :
  is_word5 (toUpperCase word) = true →
  let w1 := (on_create a room w).1 in
  steps [ev_join b room; ev_set_word a room word] w1
  = steps [ev_set_word a room word; ev_join b room] w1
  ∧ games (steps [ev_join b room; ev_set_word a room word] w1).1 !! room
    = Some (mkGame (toUpperCase word) [] [] [setter; guesser] true
              (Some a) true)
  ∧ filter (fun e : Emit => e.2 = game_started)
      (steps [ev_join b room; ev_set_word a room word] w1).2
    = [(to_room room, game_started)].
Proof.
  intros Hword w1.
  set (fresh := mkGame EmptyString [] [] [setter] false (Some a) false).
  assert (games w1 !! room = Some fresh) as Hfresh
    by (subst w1; cbn [on_create fst games]; apply lookup_insert_eq).
  rewrite !steps_two. cbn [step].
  (* joining first *)
  rewrite (on_join_waiting b room w1 fresh Hfresh eq_refl eq_refl).
  cbn [fst snd]. cbn [fresh locked players set_started set_players
                      setterSocketId default from_option app].
  rewrite (on_set_word_accepts a room word _
             (mkGame EmptyString [] [] [setter; guesser] false (Some a) false))
    by (try reflexivity; try exact Hword; cbn [games];
        apply lookup_insert_eq).
  (* locking first *)
  rewrite (on_set_word_accepts a room word w1 fresh Hfresh eq_refl eq_refl
             Hword).
  change (has_role guesser [setter; guesser]) with true.
  change (has_role guesser (players fresh)) with false.
  cbn [fst snd fresh players guesses feedbacks started setterSocketId
       orb set_games games sockets rooms timers].
  rewrite (on_join_waiting b room _
             (mkGame (toUpperCase word) [] [] [setter] false (Some a) true))
    by (try reflexivity; cbn [games]; apply lookup_insert_eq).
  unfold set_games, set_started, set_players.
  change (has_role guesser [setter; guesser]) with true.
  cbn [fst snd games sockets rooms timers locked players setterSocketId
       default from_option Datatypes.id app orb secret guesses feedbacks
       started fresh].
  rewrite !insert_insert_eq, !app_nil_r.
  split; [|split].
  - destruct (in_room _ _ _ _); reflexivity.
  - apply lookup_insert_eq.
  - destruct (in_room _ _ _ _); reflexivity.
Qed.

Lemma join_and_lock_commute_witness :
  steps [ev_join "b" "ROOM01"; ev_set_word "a" "ROOM01" "crane"]
    (on_create "a" "ROOM01" initial_server).1
  = steps [ev_set_word "a" "ROOM01" "crane"; ev_join "b" "ROOM01"]
      (on_create "a" "ROOM01" initial_server).1.
Proof.
  apply (join_and_lock_commute initial_server "a" "b" "ROOM01" "crane").
  reflexivity.
Defined.

(** * More on swapping roles *)

(** A second swap request right after a first one, from whichever
    connection, changes nothing and sends nothing: either the first did
    nothing and the second meets the same state, or the first reset the
    round and the second finds it not started. *)
Theorem role_swap_duplicate_ignored (w : Server) (id id' room : string) :
  on_request_role_swap id' room (on_request_role_swap id room w).1
  = ((on_request_role_swap id room w).1, []).
Proof.
  unfold on_request_role_swap at 2 3.
  destruct (games w !! room) as [game|] eqn:Hgame; cbn [fst].
  - destruct (started game) eqn:Hstarted; cbn [negb fst].
    + destruct (players game) as [|r1 [|r2 ps]] eqn:Hps; cbn [fst].
      * unfold on_request_role_swap. rewrite Hgame, Hstarted, Hps.
        reflexivity.
      * unfold on_request_role_swap. rewrite Hgame, Hstarted, Hps.
        reflexivity.
      * unfold on_request_role_swap. cbn [games].
        rewrite lookup_insert_eq. reflexivity.
    + unfold on_request_role_swap. rewrite Hgame, Hstarted. reflexivity.
  - unfold on_request_role_swap. rewrite Hgame. reflexivity.
Qed.

Lemma on_request_role_swap_done (id room : string) (w : Server) (game : Game)
    (r1 r2 : Role) (ps : list Role) :
  games w !! room = Some game → started game = true →
  players game = r1 :: r2 :: ps →
  let members := room_sockets (rooms w) room in
  let chosen := id_or (find_other (setterSocketId game) members)
                      (head members) in
  on_request_role_swap id room w
  = (mkServer
       (<[room := mkGame EmptyString [] [] [r2; r1] false chosen false]>
          (games w))
       (sockets w) (rooms w) (timers w ++ [(room, chosen)]),
     map (fun sid =>
            (to_room sid,
             roles_swapped (if bool_decide (Some sid = chosen)
                            then setter else guesser))) members).
Proof.
  intros Hgame Hstarted Hps members chosen. unfold on_request_role_swap.
  rewrite Hgame, Hstarted, Hps. reflexivity.
Qed.

(** When only one connection is left in the room, a swap makes that
    connection the setter connection, whether or not it was before, and
    tells it so: the choice falls back on the first member. *)
Theorem role_swap_lone_member (w : Server) (id room a : string) (game : Game) :
  games w !! room = Some game → started game = true →
  (2 ≤ length (players game))%nat →
  room_sockets (rooms w) room = [a] → truthy a = true →
  (setterSocketId <$> games (on_request_role_swap id room w).1 !! room)
  = Some (Some a)
  ∧ (on_request_role_swap id room w).2 = [(to_room a, roles_swapped setter)].
Proof.
  intros Hgame Hstarted Hseats Hroom Ha.
  destruct (players game) as [|r1 [|r2 ps]] eqn:Hps;
    [cbn in Hseats; lia|cbn in Hseats; lia|].
  rewrite (on_request_role_swap_done id room w game r1 r2 ps Hgame Hstarted
             Hps).
  rewrite Hroom. cbn [fst snd games head map].
  assert (id_or (find_other (setterSocketId game) [a]) (Some a) = Some a)
    as Hchosen.
  { unfold find_other. cbn [List.find].
    destruct (bool_decide (Some a ≠ setterSocketId game)); cbn [id_or];
      rewrite ?Ha; reflexivity. }
  rewrite Hchosen, lookup_insert_eq.
  rewrite (bool_decide_eq_true_2 _ eq_refl). split; reflexivity.
Qed.

Lemma role_swap_lone_member_witness :
  (on_request_role_swap "a" "ROOM01" (after guesser_left)).2
  = [(to_room "a", roles_swapped setter)].
Proof.
  assert (games (after guesser_left) !! "ROOM01"
          = Some (mkGame "CRANE" [] [] [setter; guesser] true (Some "a") true))
    as Hgame by (vm_compute; reflexivity).
  assert (room_sockets (rooms (after guesser_left)) "ROOM01" = ["a"])
    as Hroom by (vm_compute; reflexivity).
  apply (role_swap_lone_member (after guesser_left) "a" "ROOM01" "a" _
           Hgame eq_refl (le_n 2) Hroom eq_refl).
Defined.

(** The next round.  After a swap in a room whose two connections are a,
    the setter connection, and b, in whichever order they joined: a word
    from b is locked and starts the round at once, the guesser being
    seated, with [game-started] sent to the room; a word from a is
    ignored; and when the swap's timer fires with b still connected, b and
    only b is prompted. *)
Theorem next_round_after_swap (w : Server) (id room a b word : string)
    (game : Game) :
  reachable w →
  games w !! room = Some game → started game = true →
  room_sockets (rooms w) room = [a; b]
  ∨ room_sockets (rooms w) room = [b; a] →
  a ≠ b → truthy b = true → setterSocketId game = Some a →
  is_word5 (toUpperCase word) = true →
  let w1 := (on_request_role_swap id room w).1 in
  games (on_set_word b room word w1).1 !! room
  = Some (mkGame (toUpperCase word) [] [] (reverse (players game)) true
            (Some b) true)
  ∧ (on_set_word b room word w1).2 = [(to_room room, game_started)]
  ∧ on_set_word a room word w1 = (w1, [])
  ∧ (timers w = [] → b ∈ sockets w →
     (on_timeout w1).2 = [(to_socket b, opponent_joined)]).
Proof.
  intros Hreach Hgame Hstarted Hroom Hab Hb Hsetter Hword w1.
  pose proof (reachable_ok w Hreach) as Hw.
  assert (∃ r1 r2, players game = [r1; r2]
                   ∧ has_role guesser [r2; r1] = true) as (r1 & r2 & Hps & Hg).
  { destruct (started_two_seats w room game Hw Hgame Hstarted) as [->| ->];
      eexists _, _; split; reflexivity. }
  assert (id_or (find_other (setterSocketId game)
                   (room_sockets (rooms w) room))
                (head (room_sockets (rooms w) room)) = Some b) as Hchosen.
  { rewrite Hsetter. destruct Hroom as [-> | ->].
    - destruct (find_other_pair a b (Some a) Hab) as [Hfind _].
      rewrite (Hfind eq_refl). cbn [id_or]. rewrite Hb. reflexivity.
    - assert (b ≠ a) as Hba by congruence.
      destruct (find_other_pair b a (Some a) Hba) as [_ Hfind].
      rewrite (Hfind eq_refl). cbn [id_or]. rewrite Hb. reflexivity. }
  assert (b ∈ room_sockets (rooms w) room) as Hmember
    by (destruct Hroom as [-> | ->]; [right; left|left]).
  assert (w1 = mkServer
                 (<[room := mkGame EmptyString [] [] [r2; r1] false (Some b)
                              false]> (games w))
                 (sockets w) (rooms w) (timers w ++ [(room, Some b)]))
    as Hw1.
  { subst w1.
    rewrite (on_request_role_swap_done id room w game r1 r2 [] Hgame Hstarted
               Hps).
    cbv zeta. rewrite Hchosen. reflexivity. }
  assert (games w1 !! room
          = Some (mkGame EmptyString [] [] [r2; r1] false (Some b) false))
    as Hgame1 by (rewrite Hw1; apply lookup_insert_eq).
  split; [|split; [|split]].
  - rewrite (on_set_word_accepts b room word w1 _ Hgame1 eq_refl eq_refl
               Hword).
    cbn [fst set_games games players guesses feedbacks started
         setterSocketId]. rewrite lookup_insert_eq, Hg, Hps. reflexivity.
  - rewrite (on_set_word_accepts b room word w1 _ Hgame1 eq_refl eq_refl
               Hword).
    cbn [snd players]. rewrite Hg. reflexivity.
  - unfold on_set_word. rewrite Hgame1. cbn [secret truthy setterSocketId orb].
    rewrite bool_decide_eq_false_2 by congruence. reflexivity.
  - intros Htimers Hin. rewrite Hw1. unfold on_timeout.
    cbn [timers]. rewrite Htimers. cbn [app snd sockets rooms].
    unfold in_room. rewrite (bool_decide_eq_true_2 _ Hin).
    rewrite (bool_decide_eq_true_2 _ Hmember). reflexivity.
Qed.

Lemma next_round_after_swap_witness :
  games (on_set_word "b" "ROOM01" "tiger"
           (on_request_role_swap "b" "ROOM01" (after won_at_once)).1).1
  !! "ROOM01"
  = Some (mkGame "TIGER" [] [] [guesser; setter] true (Some "b") true)
  ∧ games (on_set_word "a" "ROOM01" "zebra"
             (on_request_role_swap "a" "ROOM01" (after second_round_won)).1).1
    !! "ROOM01"
    = Some (mkGame "ZEBRA" [] [] [setter; guesser] true (Some "a") true).
Proof.
  split.
  - assert (reachable (after won_at_once)) as Hreach
      by (exists won_at_once; vm_compute; reflexivity).
    assert (games (after won_at_once) !! "ROOM01"
            = Some (mkGame "CRANE" ["CRANE"] [replicate 5 (Some correct)]
                      [setter; guesser] true (Some "a") true)) as Hgame
      by (vm_compute; reflexivity).
    assert (room_sockets (rooms (after won_at_once)) "ROOM01" = ["a"; "b"]
            ∨ room_sockets (rooms (after won_at_once)) "ROOM01" = ["b"; "a"])
      as Hroom by (left; vm_compute; reflexivity).
    assert ("a" ≠ "b") as Hab by discriminate.
    apply (next_round_after_swap (after won_at_once) "b" "ROOM01" "a" "b"
             "tiger" _ Hreach Hgame eq_refl Hroom Hab eq_refl eq_refl
             eq_refl).
  - assert (reachable (after second_round_won)) as Hreach
      by (exists second_round_won; vm_compute; reflexivity).
    assert (games (after second_round_won) !! "ROOM01"
            = Some (mkGame "TIGER" ["TIGER"] [replicate 5 (Some correct)]
                      [guesser; setter] true (Some "b") true)) as Hgame
      by (vm_compute; reflexivity).
    assert (room_sockets (rooms (after second_round_won)) "ROOM01"
            = ["b"; "a"]
            ∨ room_sockets (rooms (after second_round_won)) "ROOM01"
              = ["a"; "b"])
      as Hroom by (right; vm_compute; reflexivity).
    assert ("b" ≠ "a") as Hba by discriminate.
    apply (next_round_after_swap (after second_round_won) "a" "ROOM01" "b"
             "a" "zebra" _ Hreach Hgame eq_refl Hroom Hba eq_refl eq_refl
             eq_refl).
Defined.

(** * More on disconnecting *)

(** When the setter connection leaves and others stay in the room, the
    first of those that stay becomes the setter connection; nothing else
    of the session changes. *)
Theorem setter_disconnect_hands_over (w : Server) (id room b : string)
    (rest : list string) (game : Game) :
  games w !! room = Some game → setterSocketId game = Some id →
  filter (fun x => x ≠ id) (room_sockets (rooms w) room) = b :: rest →
  truthy b = true →
  games (on_disconnect id w).1 !! room
  = Some (set_setterSocketId (Some b) game).
Proof.
  intros Hgame Hsetter Hstay Hb.
  rewrite on_disconnect_lookup, Hgame. cbn [mbind option_bind].
  unfold disconnect_game. rewrite leave_all_sockets, Hstay.
  cbn [length]. rewrite bool_decide_eq_false_2 by discriminate.
  rewrite (bool_decide_eq_true_2 _ Hsetter).
  assert (b ≠ id) as Hne.
  { assert (b ∈ filter (fun x => x ≠ id) (room_sockets (rooms w) room))
      as Hin by (rewrite Hstay; left).
    apply list_elem_of_filter in Hin as [Hin _]. exact Hin. }
  unfold find_other. cbn [List.find].
  rewrite bool_decide_eq_true_2 by congruence.
  cbn [id_or]. rewrite Hb. reflexivity.
Qed.

Lemma setter_disconnect_hands_over_witness :
  games (on_disconnect "a" (after round_started)).1 !! "ROOM01"
  = Some (mkGame "CRANE" [] [] [setter; guesser] true (Some "b") true).
Proof.
  assert (games (after round_started) !! "ROOM01"
          = Some (mkGame "CRANE" [] [] [setter; guesser] true (Some "a") true))
    as Hgame by (vm_compute; reflexivity).
  assert (filter (fun x => x ≠ "a")
            (room_sockets (rooms (after round_started)) "ROOM01") = ["b"])
    as Hstay by (vm_compute; reflexivity).
  apply (setter_disconnect_hands_over (after round_started) "a" "ROOM01" "b"
           [] _ Hgame eq_refl Hstay eq_refl).
Defined.

(** * Errors *)

(** Membership in the short emission lists of the handlers. *)
Ltac emitted H :=
  repeat first
    [ apply elem_of_nil in H; contradiction
    | apply elem_of_cons in H as [H|H]
    | apply elem_of_app in H as [H|H] ].

(** Whenever a handler emits an [error], the event came from a
    connection, the error is the only thing emitted and goes to that
    connection alone, the server state is unchanged, and the event is a
    [join] or a [set-word]. *)
Theorem errors_go_to_the_caller (e : Event) (w : Server) (t : Target)
    (text : string) :
  (t, error text) ∈ (step e w).2 →
  ∃ id, sender e = Some id
        ∧ step e w = (w, [(to_socket id, error text)])
        ∧ ((∃ room, e = ev_join id room)
           ∨ (∃ room word, e = ev_set_word id room word)).
Proof.
  intros Hin. destruct e; cbn [step sender] in *.
  - cbn in Hin. emitted Hin.
  - cbn [on_create snd] in Hin. emitted Hin. discriminate.
  - exists id. split; [reflexivity|]. split; [|left; eauto].
    unfold on_join in *.
    destruct (games w !! room) as [game|].
    + destruct (has_role guesser (players game)).
      { emitted Hin. injection Hin as -> ->. reflexivity. }
      destruct (locked game && started game)%bool.
      { emitted Hin. injection Hin as -> ->. reflexivity. }
      cbn [snd] in Hin.
      destruct (locked _ && negb _)%bool; cbn [snd] in Hin;
        destruct (in_room _ _ _ _); emitted Hin; discriminate.
    + emitted Hin. injection Hin as -> ->. reflexivity.
  - exists id. split; [reflexivity|]. split; [|right; eauto].
    unfold on_set_word in *.
    destruct (games w !! room) as [game|]; [|emitted Hin].
    destruct (truthy (secret game) || _)%bool; [emitted Hin|].
    destruct (is_word5 (toUpperCase word)); cbn [negb] in *.
    + destruct (has_role guesser _); cbn [snd] in Hin; emitted Hin;
        discriminate.
    + emitted Hin. injection Hin as -> ->. reflexivity.
  - unfold on_guess in Hin.
    destruct (games w !! room) as [game|]; [|emitted Hin].
    destruct (negb (truthy (secret game)) || _)%bool; [emitted Hin|].
    destruct (is_word5 (toUpperCase guess)); cbn [negb snd] in Hin;
      emitted Hin. discriminate.
  - unfold on_request_role_swap in Hin.
    destruct (games w !! room) as [game|]; [|emitted Hin].
    destruct (started game); cbn [negb] in Hin; [|emitted Hin].
    destruct (players game) as [|r1 [|r2 ps]]; [emitted Hin|emitted Hin|].
    cbn [snd] in Hin. apply list_elem_of_fmap in Hin as (sid & Heq & _).
    discriminate.
  - unfold on_timeout in Hin.
    destruct (timers w) as [|[room [sid|]] rest]; cbn [snd] in Hin;
      [emitted Hin| |emitted Hin].
    destruct (in_room _ _ _ _); emitted Hin. discriminate.
  - cbn in Hin. emitted Hin.
Qed.

Lemma errors_go_to_the_caller_witness :
  ∃ id, sender (ev_join "c" "NOROOM") = Some id
        ∧ step (ev_join "c" "NOROOM") (after round_started)
          = (after round_started, [(to_socket id, error "Room not found")]).
Proof.
  destruct (errors_go_to_the_caller (ev_join "c" "NOROOM")
              (after round_started) (to_socket "c") "Room not found")
    as (id & Hsender & Hstep & _).
  - vm_compute. left.
  - exists id. split; assumption.
Defined.

(** * When [game-started] is sent *)

Lemma lookup_insert_started (m : gmap string Game) (r room : string)
    (gnew g g' : Game) :
  m !! room = Some g → <[r := gnew]> m !! room = Some g' →
  started g = false → started g' = true →
  r = room ∧ gnew = g'.
Proof.
  intros Hg Hg' Hs Hs'. destruct (decide (r = room)) as [->|Hne].
  - rewrite lookup_insert_eq in Hg'. split; congruence.
  - rewrite lookup_insert_ne in Hg' by assumption. congruence.
Qed.

(** Nothing starts where the registry is left as it was. *)
Lemma no_start_unchanged (w : Server) (room : string) :
  ¬ ∃ g g', games w !! room = Some g ∧ games w !! room = Some g'
            ∧ started g = false ∧ started g' = true.
Proof. intros (g & g' & Hg & Hg' & Hs & Hs'). congruence. Qed.

(** In a reachable state, a handler sends [game-started] to a room
    exactly when it takes that room's session from not started to
    started. *)
Theorem game_started_marks_the_start (e : Event) (w : Server) (room : string) :
  reachable w →
  ((to_room room, game_started) ∈ (step e w).2
   ↔ ∃ g g', games w !! room = Some g
             ∧ games (step e w).1 !! room = Some g'
             ∧ started g = false ∧ started g' = true).
Proof.
  intros Hreach. pose proof (reachable_ok w Hreach) as Hw.
  destruct e as [id|id r|id r|id r word|id r guess|id r| |id]; cbn [step].
  - split; [intros H; cbn in H; emitted H|].
    intros H. exfalso. exact (no_start_unchanged w room H).
  - split; [intros H; cbn in H; emitted H; discriminate|].
    intros (g & g' & Hg & Hg' & Hs & Hs'). cbn [on_create fst games] in Hg'.
    destruct (lookup_insert_started _ _ _ _ _ _ Hg Hg' Hs Hs') as [_ <-].
    discriminate.
  - unfold on_join. destruct (games w !! r) as [game|] eqn:Hgame.
    2:{ split; [intros H; emitted H; discriminate|].
        intros H. exfalso. exact (no_start_unchanged w room H). }
    destruct (has_role guesser (players game)).
    { split; [intros H; emitted H; discriminate|].
      intros H. exfalso. exact (no_start_unchanged w room H). }
    destruct (locked game && started game)%bool.
    { split; [intros H; emitted H; discriminate|].
      intros H. exfalso. exact (no_start_unchanged w room H). }
    cbn [set_players locked started].
    destruct (locked game && negb (started game))%bool eqn:Hbegin;
      cbn [fst snd games]; split.
    + intros H. apply andb_true_iff in Hbegin as [_ Hn].
      apply negb_true_iff in Hn.
      assert (room = r) as ->
        by (destruct (in_room _ _ _ _); emitted H; try discriminate;
            congruence).
      eexists _, _. split; [exact Hgame|].
      split; [apply lookup_insert_eq|]. split; [exact Hn|reflexivity].
    + intros (g & g' & Hg & Hg' & Hs & Hs').
      destruct (lookup_insert_started _ _ _ _ _ _ Hg Hg' Hs Hs') as [-> _].
      apply elem_of_cons. right. apply elem_of_app. right. left.
    + intros H. destruct (in_room _ _ _ _); emitted H; discriminate.
    + intros (g & g' & Hg & Hg' & Hs & Hs').
      destruct (lookup_insert_started _ _ _ _ _ _ Hg Hg' Hs Hs') as [-> <-].
      cbn in Hs'. congruence.
  - unfold on_set_word. destruct (games w !! r) as [game|] eqn:Hgame.
    2:{ split; [intros H; emitted H|].
        intros H. exfalso. exact (no_start_unchanged w room H). }
    destruct (truthy (secret game)) eqn:Hsecret; cbn [orb].
    { split; [intros H; emitted H|].
      intros H. exfalso. exact (no_start_unchanged w room H). }
    destruct (negb (bool_decide (setterSocketId game = Some id))).
    { split; [intros H; emitted H|].
      intros H. exfalso. exact (no_start_unchanged w room H). }
    destruct (is_word5 (toUpperCase word)); cbn [negb].
    2:{ split; [intros H; emitted H; discriminate|].
        intros H. exfalso. exact (no_start_unchanged w room H). }
    assert (started game = false) as Hidle.
    { destruct (Hw r game Hgame) as [_ _ Hstart Hlock].
      destruct (started game); [|reflexivity].
      destruct (Hstart eq_refl) as [_ Hl]. congruence. }
    cbn [set_locked set_secret players].
    destruct (has_role guesser (players game)) eqn:Hseat;
      cbn [fst snd set_games games]; split.
    + intros H. emitted H. injection H as ->.
      eexists game, _. split; [exact Hgame|].
      split; [apply lookup_insert_eq|]. split; [exact Hidle|reflexivity].
    + intros (g & g' & Hg & Hg' & Hs & Hs').
      destruct (lookup_insert_started _ _ _ _ _ _ Hg Hg' Hs Hs') as [-> _].
      left.
    + intros H. emitted H.
    + intros (g & g' & Hg & Hg' & Hs & Hs').
      destruct (lookup_insert_started _ _ _ _ _ _ Hg Hg' Hs Hs') as [-> <-].
      cbn in Hs'. congruence.
  - unfold on_guess. destruct (games w !! r) as [game|] eqn:Hgame.
    2:{ split; [intros H; emitted H|].
        intros H. exfalso. exact (no_start_unchanged w room H). }
    destruct (negb (truthy (secret game)) || _)%bool.
    { split; [intros H; emitted H|].
      intros H. exfalso. exact (no_start_unchanged w room H). }
    destruct (is_word5 (toUpperCase guess)); cbn [negb].
    2:{ split; [intros H; emitted H|].
        intros H. exfalso. exact (no_start_unchanged w room H). }
    cbn [fst snd set_games games]. split.
    + intros H. emitted H. discriminate.
    + intros (g & g' & Hg & Hg' & Hs & Hs').
      destruct (lookup_insert_started _ _ _ _ _ _ Hg Hg' Hs Hs') as [-> <-].
      cbn in Hs'. congruence.
  - unfold on_request_role_swap. destruct (games w !! r) as [game|] eqn:Hgame.
    2:{ split; [intros H; emitted H|].
        intros H. exfalso. exact (no_start_unchanged w room H). }
    destruct (started game); cbn [negb].
    2:{ split; [intros H; emitted H|].
        intros H. exfalso. exact (no_start_unchanged w room H). }
    destruct (players game) as [|r1 [|r2 ps]].
    1,2: split; [intros H; emitted H|
                 intros H; exfalso; exact (no_start_unchanged w room H)].
    cbn [fst snd games]. split.
    + intros H. apply list_elem_of_fmap in H as (sid & Heq & _).
      discriminate.
    + intros (g & g' & Hg & Hg' & Hs & Hs').
      destruct (lookup_insert_started _ _ _ _ _ _ Hg Hg' Hs Hs') as [-> <-].
      discriminate.
  - unfold on_timeout. destruct (timers w) as [|[r [sid|]] rest];
      cbn [fst snd games]; (split;
        [|intros H; exfalso; exact (no_start_unchanged w room H)]).
    + intros H. emitted H.
    + intros H. destruct (in_room _ _ _ _); emitted H. discriminate.
    + intros H. emitted H.
  - split; [intros H; cbn in H; emitted H|].
    intros (g & g' & Hg & Hg' & Hs & Hs').
    rewrite on_disconnect_lookup, Hg in Hg'. cbn [mbind option_bind] in Hg'.
    unfold disconnect_game in Hg'.
    destruct (bool_decide (length _ = 0%nat)); [discriminate|].
    destruct (bool_decide (setterSocketId g = Some id));
      injection Hg' as <-; cbn in Hs'; congruence.
Qed.

Lemma game_started_marks_the_start_witness :
  (to_room "ROOM01", game_started)
  ∈ (step (ev_join "b" "ROOM01") (after locked_waiting)).2.
Proof.
  apply (game_started_marks_the_start (ev_join "b" "ROOM01")
           (after locked_waiting) "ROOM01").
  - exists locked_waiting. vm_compute. reflexivity.
  - exists (mkGame "CRANE" [] [] [setter] false (Some "a") true),
           (mkGame "CRANE" [] [] [setter; guesser] true (Some "a") true).
    split; [vm_compute; reflexivity|].
    split; [vm_compute; reflexivity|]. split; reflexivity.
Defined.

(** * Within a round *)

(** Any handler other than a role swap on the room, or a [create] that
    draws its code again, leaves a surviving session's history growing
    only: guesses, feedback rows and seats are only ever appended to, a
    secret once set is kept, and [locked] and [started] are not taken
    back. *)
Theorem round_history_only_grows (e : Event) (w : Server) (room : string)
    (g g' : Game) :
  draws room e = false → swaps room e = false →
  games w !! room = Some g → games (step e w).1 !! room = Some g' →
  guesses g `prefix_of` guesses g'
  ∧ feedbacks g `prefix_of` feedbacks g'
  ∧ players g `prefix_of` players g'
  ∧ (truthy (secret g) = true → secret g' = secret g)
  ∧ (locked g = true → locked g' = true)
  ∧ (started g = true → started g' = true).
Proof.
  intros Hdraw Hswap Hg Hg'.
  assert (∀ x : Game,
            x = g →
            guesses g `prefix_of` guesses x
            ∧ feedbacks g `prefix_of` feedbacks x
            ∧ players g `prefix_of` players x
            ∧ (truthy (secret g) = true → secret x = secret g)
            ∧ (locked g = true → locked x = true)
            ∧ (started g = true → started x = true)) as Hsame
    by (intros x ->; repeat split; auto).
  assert (∀ (r : string) (gnew : Game),
            <[r := gnew]> (games w) !! room = Some g' →
            r ≠ room ∨ (r = room ∧ gnew = g')) as Hins.
  { intros r gnew H. destruct (decide (r = room)) as [->|Hne]; [|auto].
    rewrite lookup_insert_eq in H. right. split; congruence. }
  assert (∀ (r : string) (gnew : Game),
            <[r := gnew]> (games w) !! room = Some g' → r ≠ room → g' = g)
    as Hother.
  { intros r gnew H Hne. rewrite lookup_insert_ne in H by assumption.
    congruence. }
  destruct e as [id|id r|id r|id r word|id r guess|id r| |id];
    cbn [step draws swaps] in *.
  - apply Hsame. cbn in Hg'. congruence.
  - apply bool_decide_eq_false in Hdraw. cbn [on_create fst games] in Hg'.
    apply Hsame. eapply Hother; eassumption.
  - unfold on_join in Hg'.
    destruct (games w !! r) as [game|] eqn:Hgame;
      [|apply Hsame; cbn in Hg'; congruence].
    destruct (has_role guesser (players game));
      [apply Hsame; cbn in Hg'; congruence|].
    destruct (locked game && started game)%bool;
      [apply Hsame; cbn in Hg'; congruence|].
    destruct (locked _ && negb _)%bool; cbn [fst games] in Hg';
      (destruct (Hins _ _ Hg') as [Hne|[-> <-]];
       [apply Hsame; eapply Hother; eassumption|]);
      rewrite Hg in Hgame; injection Hgame as <-; cbn;
      repeat split; auto; apply prefix_app_r; reflexivity.
  - unfold on_set_word in Hg'.
    destruct (games w !! r) as [game|] eqn:Hgame;
      [|apply Hsame; cbn in Hg'; congruence].
    destruct (truthy (secret game)) eqn:Hsecret;
      [apply Hsame; cbn in Hg'; congruence|].
    destruct (bool_decide (setterSocketId game = Some id));
      [|apply Hsame; cbn in Hg'; congruence].
    cbn [negb orb] in Hg'.
    destruct (is_word5 (toUpperCase word));
      [|apply Hsame; cbn in Hg'; congruence].
    cbn [negb] in Hg'.
    destruct (has_role guesser _); cbn [fst set_games games] in Hg';
      (destruct (Hins _ _ Hg') as [Hne|[-> <-]];
       [apply Hsame; eapply Hother; eassumption|]);
      rewrite Hg in Hgame; injection Hgame as <-; cbn;
      repeat split; auto; congruence.
  - unfold on_guess in Hg'.
    destruct (games w !! r) as [game|] eqn:Hgame;
      [|apply Hsame; cbn in Hg'; congruence].
    destruct (negb (truthy (secret game)) || _)%bool;
      [apply Hsame; cbn in Hg'; congruence|].
    destruct (is_word5 (toUpperCase guess));
      [|apply Hsame; cbn in Hg'; congruence].
    cbn [negb fst set_games games] in Hg'.
    destruct (Hins _ _ Hg') as [Hne|[-> <-]];
      [apply Hsame; eapply Hother; eassumption|].
    rewrite Hg in Hgame. injection Hgame as <-. cbn.
    repeat split; auto; apply prefix_app_r; reflexivity.
  - apply bool_decide_eq_false in Hswap.
    unfold on_request_role_swap in Hg'.
    destruct (games w !! r) as [game|] eqn:Hgame;
      [|apply Hsame; cbn in Hg'; congruence].
    destruct (started game); cbn [negb] in Hg';
      [|apply Hsame; cbn in Hg'; congruence].
    destruct (players game) as [|r1 [|r2 ps]];
      [apply Hsame; cbn in Hg'; congruence
      |apply Hsame; cbn in Hg'; congruence|].
    cbn [fst games] in Hg'. apply Hsame. eapply Hother; eassumption.
  - apply Hsame. unfold on_timeout in Hg'.
    destruct (timers w) as [|[? ?] ?]; cbn in Hg'; congruence.
  - rewrite on_disconnect_lookup, Hg in Hg'. cbn [mbind option_bind] in Hg'.
    unfold disconnect_game in Hg'.
    destruct (bool_decide (length _ = 0%nat)); [discriminate|].
    destruct (bool_decide (setterSocketId g = Some id));
      injection Hg' as <-; cbn; repeat split; auto.
Qed.

Lemma round_history_only_grows_witness :
  ∃ g g',
    games (after six_misses) !! "ROOM01" = Some g
    ∧ games (step (ev_guess "b" "ROOM01" "WRONG") (after six_misses)).1
      !! "ROOM01" = Some g'
    ∧ guesses g `prefix_of` guesses g'
    ∧ secret g' = secret g.
Proof.
  assert (games (after six_misses) !! "ROOM01"
          = Some (mkGame "CRANE"
                    ["MOUSE"; "TIGER"; "HORSE"; "SHEEP"; "ZEBRA"; "LLAMA"]
                    (map (fun g => evaluate g "CRANE")
                       ["MOUSE"; "TIGER"; "HORSE"; "SHEEP"; "ZEBRA"; "LLAMA"])
                    [setter; guesser] true (Some "a") true)) as Hg
    by (vm_compute; reflexivity).
  assert (games (step (ev_guess "b" "ROOM01" "WRONG") (after six_misses)).1
          !! "ROOM01"
          = Some (mkGame "CRANE"
                    ["MOUSE"; "TIGER"; "HORSE"; "SHEEP"; "ZEBRA"; "LLAMA";
                     "WRONG"]
                    (map (fun g => evaluate g "CRANE")
                       ["MOUSE"; "TIGER"; "HORSE"; "SHEEP"; "ZEBRA"; "LLAMA";
                        "WRONG"])
                    [setter; guesser] true (Some "a") true)) as Hg'
    by (vm_compute; reflexivity).
  destruct (round_history_only_grows (ev_guess "b" "ROOM01" "WRONG")
              (after six_misses) "ROOM01" _ _ eq_refl eq_refl Hg Hg')
    as (Hguesses & _ & _ & Hsecret & _).
  eexists _, _. split; [exact Hg|]. split; [exact Hg'|].
  split; [exact Hguesses|]. apply Hsecret. reflexivity.
Defined.

(** * A whole round *)

Lemma round_opened (w : Server) (a b room word : string) :
  is_word5 (toUpperCase word) = true →
  games (on_set_word a room word
           (on_join b room (on_create a room w).1).1).1 !! room
  = Some (mkGame (toUpperCase word) [] [] [setter; guesser] true (Some a)
            true).
Proof.
  intros Hword.
  set (fresh := mkGame EmptyString [] [] [setter] false (Some a) false).
  assert (games (on_create a room w).1 !! room = Some fresh) as Hfresh
    by (cbn [on_create fst games]; apply lookup_insert_eq).
  rewrite (on_join_waiting b room _ fresh Hfresh eq_refl eq_refl).
  cbn [fst].
  rewrite (on_set_word_accepts a room word _
             (mkGame EmptyString [] [] [setter; guesser] false (Some a) false))
    by (try reflexivity; try exact Hword; cbn [games];
        apply lookup_insert_eq).
  cbn [fst set_games games]. rewrite lookup_insert_eq. reflexivity.
Qed.

(** From any server state: once a room is created by a, joined by b and
    given a valid word by a, a guess that upper-cases to the same word,
    from whichever connection, is stored as the first guess and broadcast
    to the room as five times correct, won and over, attempt 1. *)
Theorem lock_then_guess_wins (w : Server) (a b id room word guess : string) :
  is_word5 (toUpperCase word) = true →
  toUpperCase guess = toUpperCase word →
  let w3 := (on_set_word a room word
               (on_join b room (on_create a room w).1).1).1 in
  (on_guess id room guess w3).2
  = [(to_room room,
      guess_result (toUpperCase word) (replicate 5 (Some correct))
        true true 1)]
  ∧ (guesses <$> games (on_guess id room guess w3).1 !! room)
    = Some [toUpperCase word].
Proof.
  intros Hword Hsame w3.
  pose proof (round_opened w a b room word Hword) as Hgame. fold w3 in Hgame.
  assert (is_word5 (toUpperCase guess) = true) as Hguess by congruence.
  rewrite (on_guess_accepts w3 id room guess _ Hgame
             (is_word5_truthy _ Hword) eq_refl Hguess).
  cbn [fst snd secret guesses length set_games games set_guesses
       set_feedbacks app]. rewrite lookup_insert_eq, Hsame.
  assert (evaluate (toUpperCase word) (toUpperCase word)
          = replicate 5 (Some correct)) as Hrow.
  { apply every_correct_row.
    rewrite (every_correct_same_word _ _ Hword Hword).
    apply bool_decide_eq_true. reflexivity. }
  rewrite Hrow. split; reflexivity.
Qed.

Lemma lock_then_guess_wins_witness :
  (on_guess "b" "ROOM01" "Tiger"
     (on_set_word "a" "ROOM01" "tiger"
        (on_join "b" "ROOM01"
           (on_create "a" "ROOM01" initial_server).1).1).1).2
  = [(to_room "ROOM01",
      guess_result "TIGER" (replicate 5 (Some correct)) true true 1)].
Proof.
  apply (lock_then_guess_wins initial_server "a" "b" "b" "ROOM01" "tiger"
           "Tiger"); reflexivity.
Defined.
